(** * TCP-Server: a model of [Server.cpp] / [Server.h]

    The server has three kinds of threads: the controlling thread (constructor,
    [startServer], destructor), the message-queue thread
    ([handleMessageQueue]) and one thread per accepted client
    ([handleClient]).  They are modelled as an interleaving transition system
    over one [State]; each transition executes one statement of the source, and
    every answer of the operating system (the results of [socket], [bind],
    [listen], [accept], [pthread_create], [recv], the text typed at the prompt)
    is part of the transition's label.

    Modelling conventions:
    - [int] values (sockets, ports, byte counts) are [Z]; no arithmetic is
      done on them in the source, so no wrap-around arises;
    - [std::string] is [string], a [char] buffer is a [list ascii];
    - [std::map<int, pthread_t>] is a [gmap Z nat], [std::queue] a list whose
      head is the front;
    - statements are atomic and interleave sequentially consistently; the
      member [mutex], which the source never initialises, starts unlocked. *)

From Stdlib Require Import ZArith Ascii List DecimalString.
From Stdlib Require String.
From stdpp Require Import base option list strings gmap sorting.

Local Open Scope Z_scope.

(** ** Text output *)

(** [std::ostream::operator<<(int)]: decimal digits, with a leading minus
    sign for negative values. *)
Definition show_int (n : Z) : string := NilZero.string_of_int (Z.to_int n).

(** The two output streams are accumulated as text. *)
Definition put_str (s : string) (out : string) : string := out +:+ s.
Definition put_int (n : Z) (out : string) : string := out +:+ show_int n.

(** ** C strings *)

Definition NUL : ascii := Ascii.zero.

Definition is_NUL (c : ascii) : bool := Ascii.eqb c NUL.

(** The characters before the first NUL, and whether a NUL was met. *)
Fixpoint c_str_chars (buf : list ascii) : option (list ascii) :=
  match buf with
  | [] => None
  | c :: rest =>
      if is_NUL c then Some []
      else match c_str_chars rest with
           | Some cs => Some (c :: cs)
           | None => None
           end
  end.

(** [std::string(const char* )] applied to an array: the characters up to the
    first NUL.  When the array holds no NUL the constructor reads past its
    end, which the model leaves undefined ([None]). *)
Definition string_of_c_str (buf : list ascii) : option string :=
  String.string_of_list_ascii <$> c_str_chars buf.

(** [memset(buffer, 0, sizeof(buffer))] *)
Definition memset_zero (n : nat) : list ascii := replicate n NUL.

(** [recv] stores the received bytes at the start of the buffer and leaves
    the rest untouched. *)
Definition recv_into (data buf : list ascii) : list ascii :=
  data ++ drop (length data) buf.

(** ** Data of [Server.h] *)

Definition MAX_CLIENTS : Z := 10.

(** [char buffer[256]] *)
Definition BUFFER_SIZE : nat := 256.

(** [TCPServerError]: the exception carries its message. *)
Record TCPServerError := MkError { what : string }.

(** [std::pair<int, std::string>] *)
Definition Message : Type := Z * string.

(** ** Threads *)

Inductive thread_id :=
  | MainThread
  | QueueThread
  | ClientThread (t : nat).

(** Control points of [Server::handleMessageQueue]; a control point carries
    the local [clientMessagePair] once it is initialised. *)
Inductive queue_pc :=
  | QCheckEmpty                           (* while(messageQueue.empty()) *)
  | QSleep                                (* usleep(10000) *)
  | QLock                                 (* pthread_mutex_lock *)
  | QFront                                (* = messageQueue.front() *)
  | QPop (clientMessagePair : Message)    (* messageQueue.pop() *)
  | QUnlock (clientMessagePair : Message) (* pthread_mutex_unlock *)
  | QPrint (clientMessagePair : Message)  (* std::cout << ... *)
  | QReturn.                              (* the end of the function *)

(** Control points of [Server::handleClient]. *)
Inductive client_pc :=
  | CRecv            (* while((bytesRead = recv(...)) > 0) *)
  | CLock            (* pthread_mutex_lock *)
  | CPush            (* messageQueue.push(std::make_pair(clientSocket, buffer)) *)
  | CUnlock          (* pthread_mutex_unlock *)
  | CMemset          (* memset(buffer, 0, sizeof(buffer)) *)
  | CIfDisconnected  (* if(bytesRead <= 0) *)
  | CClose           (* close(clientSocket) *)
  | CReturn.         (* the end of the function *)

Record client_frame := MkFrame {
  clientSocket : Z;
  buffer : list ascii;
  bytesRead : Z;
  cpc : client_pc
}.

(** A client thread is [Spawned] by [pthread_create] and reads its argument,
    the [PosixThreadData] at the address it was given, when it starts running
    ([handleClientWrapper]). *)
Inductive client_thread :=
  | Spawned
  | Running (f : client_frame).

(** Control points of the controlling thread. *)
Inductive main_pc :=
  | MConstruct                              (* entering Server::Server *)
  | MConstructThrew (e : TCPServerError)    (* the constructor rethrew *)
  | MStartListening                         (* startServer: calling startListening *)
  | MAcceptLoop                             (* startListening: while(true) *)
  | MPrompt (counter : nat)                 (* startServer: reading the answer *)
  | MStartServerThrew (e : TCPServerError)  (* createAndBindSocket threw on restart *)
  | MStartServerReturned
  | MDtorClients (rest : list (Z * nat))    (* ~Server: for(auto& [socket, thread]: clientsMap) *)
  | MDtorQueueThread                        (* ~Server: pthread_join(messageQueueThread) *)
  | MDtorCloseSocket                        (* ~Server: close(serverSocket) *)
  | MDestroyed.

(** ** The operating system's sockets *)

Inductive sock_state :=
  | SockFresh
  | SockBound (port : Z)
  | SockListening (port backlog : Z)
  | SockConnected.

#[global] Instance sock_state_eq_dec : EqDecision sock_state.
Proof. solve_decision. Defined.

(** ** The state *)

Record State := MkState {
  (* the members of [Server] *)
  serverPort : Z;
  serverSocket : Z;
  clientsMap : gmap Z nat;
  messageQueue : list Message;
  mutex : option thread_id;              (* the thread holding the mutex *)
  (* the threads *)
  control : main_pc;
  messageQueueThread : option queue_pc;  (* [None]: not yet created *)
  clientThreads : list client_thread;    (* a [pthread_t] is an index here *)
  threadData : Z;                        (* [clientSoc] of startListening's [threadData] *)
  (* the environment *)
  sockets : gmap Z sock_state;
  cout : string;
  cerr : string
}.

Definition set_serverSocket (v : Z) (st : State) : State :=
  {| serverPort := serverPort st; serverSocket := v; clientsMap := clientsMap st;
     messageQueue := messageQueue st; mutex := mutex st; control := control st;
     messageQueueThread := messageQueueThread st; clientThreads := clientThreads st;
     threadData := threadData st; sockets := sockets st; cout := cout st;
     cerr := cerr st |}.

Definition set_clientsMap (v : gmap Z nat) (st : State) : State :=
  {| serverPort := serverPort st; serverSocket := serverSocket st; clientsMap := v;
     messageQueue := messageQueue st; mutex := mutex st; control := control st;
     messageQueueThread := messageQueueThread st; clientThreads := clientThreads st;
     threadData := threadData st; sockets := sockets st; cout := cout st;
     cerr := cerr st |}.

Definition set_messageQueue (v : list Message) (st : State) : State :=
  {| serverPort := serverPort st; serverSocket := serverSocket st;
     clientsMap := clientsMap st; messageQueue := v; mutex := mutex st;
     control := control st; messageQueueThread := messageQueueThread st;
     clientThreads := clientThreads st; threadData := threadData st;
     sockets := sockets st; cout := cout st; cerr := cerr st |}.

Definition set_mutex (v : option thread_id) (st : State) : State :=
  {| serverPort := serverPort st; serverSocket := serverSocket st;
     clientsMap := clientsMap st; messageQueue := messageQueue st; mutex := v;
     control := control st; messageQueueThread := messageQueueThread st;
     clientThreads := clientThreads st; threadData := threadData st;
     sockets := sockets st; cout := cout st; cerr := cerr st |}.

Definition set_control (v : main_pc) (st : State) : State :=
  {| serverPort := serverPort st; serverSocket := serverSocket st;
     clientsMap := clientsMap st; messageQueue := messageQueue st; mutex := mutex st;
     control := v; messageQueueThread := messageQueueThread st;
     clientThreads := clientThreads st; threadData := threadData st;
     sockets := sockets st; cout := cout st; cerr := cerr st |}.

Definition set_messageQueueThread (v : option queue_pc) (st : State) : State :=
  {| serverPort := serverPort st; serverSocket := serverSocket st;
     clientsMap := clientsMap st; messageQueue := messageQueue st; mutex := mutex st;
     control := control st; messageQueueThread := v; clientThreads := clientThreads st;
     threadData := threadData st; sockets := sockets st; cout := cout st;
     cerr := cerr st |}.

Definition set_clientThreads (v : list client_thread) (st : State) : State :=
  {| serverPort := serverPort st; serverSocket := serverSocket st;
     clientsMap := clientsMap st; messageQueue := messageQueue st; mutex := mutex st;
     control := control st; messageQueueThread := messageQueueThread st;
     clientThreads := v; threadData := threadData st; sockets := sockets st;
     cout := cout st; cerr := cerr st |}.

Definition set_threadData (v : Z) (st : State) : State :=
  {| serverPort := serverPort st; serverSocket := serverSocket st;
     clientsMap := clientsMap st; messageQueue := messageQueue st; mutex := mutex st;
     control := control st; messageQueueThread := messageQueueThread st;
     clientThreads := clientThreads st; threadData := v; sockets := sockets st;
     cout := cout st; cerr := cerr st |}.

Definition set_sockets (v : gmap Z sock_state) (st : State) : State :=
  {| serverPort := serverPort st; serverSocket := serverSocket st;
     clientsMap := clientsMap st; messageQueue := messageQueue st; mutex := mutex st;
     control := control st; messageQueueThread := messageQueueThread st;
     clientThreads := clientThreads st; threadData := threadData st; sockets := v;
     cout := cout st; cerr := cerr st |}.

Definition set_cout (v : string) (st : State) : State :=
  {| serverPort := serverPort st; serverSocket := serverSocket st;
     clientsMap := clientsMap st; messageQueue := messageQueue st; mutex := mutex st;
     control := control st; messageQueueThread := messageQueueThread st;
     clientThreads := clientThreads st; threadData := threadData st;
     sockets := sockets st; cout := v; cerr := cerr st |}.

Definition set_cerr (v : string) (st : State) : State :=
  {| serverPort := serverPort st; serverSocket := serverSocket st;
     clientsMap := clientsMap st; messageQueue := messageQueue st; mutex := mutex st;
     control := control st; messageQueueThread := messageQueueThread st;
     clientThreads := clientThreads st; threadData := threadData st;
     sockets := sockets st; cout := cout st; cerr := v |}.

(** The state on entry to the body of [Server::Server(Port)]: [serverPort]
    is set by the member initialiser, [serverSocket] holds whatever the
    memory held, the containers are empty and no thread exists.  The memory
    of the mutex is taken to read as an unlocked mutex. *)
Definition initial (Port uninit_socket : Z) : State :=
  {| serverPort := Port; serverSocket := uninit_socket; clientsMap := ∅;
     messageQueue := []; mutex := None;
     control := MConstruct; messageQueueThread := None; clientThreads := [];
     threadData := 0;
     sockets := ∅; cout := ""; cerr := "" |}.

(** *** System calls *)

Definition os_close (fd : Z) (st : State) : State :=
  set_sockets (delete fd (sockets st)) st.

Definition os_socket (fd : Z) (st : State) : State :=
  set_sockets (<[fd := SockFresh]> (sockets st)) st.

(** [htons] takes a [uint16_t]: the port bound is the low 16 bits. *)
Definition htons (p : Z) : Z := p mod 65536.

Definition os_bind (fd port : Z) (st : State) : State :=
  set_sockets (<[fd := SockBound port]> (sockets st)) st.

(** The source only ever listens on the socket it has just bound. *)
Definition os_listen (fd backlog : Z) (st : State) : State :=
  set_sockets
    (alter (λ s, match s with SockBound p => SockListening p backlog | _ => s end)
           fd (sockets st)) st.

Definition os_accept (fd : Z) (st : State) : State :=
  set_sockets (<[fd := SockConnected]> (sockets st)) st.

Definition print_out (s : string) (st : State) : State := set_cout (put_str s (cout st)) st.
Definition print_out_int (n : Z) (st : State) : State := set_cout (put_int n (cout st)) st.
Definition print_err (s : string) (st : State) : State := set_cerr (put_str s (cerr st)) st.

(** The connections that are open: accepted and not yet closed. *)
Definition live_connections (st : State) : nat :=
  size (filter (λ kv, kv.2 = SockConnected) (sockets st)).

(** ** The controlling thread *)

Notation "st |> f" := (f st) (at level 45, left associativity, only parsing).

Definition nl : string := String "010"%char "".

(** How a call ends: normally, or by throwing a [TCPServerError]. *)
Inductive outcome :=
  | Normal (st : State)
  | Throws (ex : TCPServerError) (st : State).

(** [Server::createAndBindSocket]; [sock_fd] and [bind_r] are the results of
    [socket] and [bind]. *)
Definition createAndBindSocket (sock_fd bind_r : Z) (st : State) : outcome :=
  let st := os_close (serverSocket st) st in
  let st := set_serverSocket sock_fd st in
  if sock_fd =? -1 then Throws (MkError "Socket could not be created.") st
  else
    let st := os_socket sock_fd st in
    if bind_r =? -1 then
      Throws (MkError "Unable to bind socket.") (os_close (serverSocket st) st)
    else Normal (os_bind (serverSocket st) (htons (serverPort st)) st).

(** [Server::Server]: the body of the [try] block, then the handler that
    closes the socket and rethrows. *)
Definition constructor (sock_fd bind_r create_r : Z) (st : State) : outcome :=
  let body :=
    match createAndBindSocket sock_fd bind_r st with
    | Normal st =>
        if negb (create_r =? 0)
        then Throws (MkError "Message Queue Thread could not be created.") st
        else Normal (set_messageQueueThread (Some QCheckEmpty) st)
    | Throws ex st => Throws ex st
    end in
  match body with
  | Normal st => Normal st
  | Throws ex st => Throws ex (os_close (serverSocket st) st)
  end.

(** [Server::startListening] up to its loop; [listen_r] is the result of
    [listen]. *)
Definition startListening_listen (listen_r : Z) (st : State) : outcome :=
  if listen_r =? -1 then Throws (MkError "Listening error.") st
  else Normal (st |> os_listen (serverSocket st) MAX_CLIENTS
                  |> print_out "Server is listening for connections on Port "
                  |> print_out_int (serverPort st)
                  |> print_out nl).

(** One iteration of the loop of [Server::startListening]; [accept_r] and
    [create_r] are the results of [accept] and [pthread_create].  The
    [close(clientSocket)] that the source writes after the [throw] is never
    executed. *)
Definition startListening_iteration (accept_r create_r : Z) (st : State) : outcome :=
  let clientSocket := accept_r in
  let st :=
    if clientSocket =? -1
    then st |> print_err "Failed to accept request from a client." |> print_err nl
    else st |> os_accept clientSocket
            |> print_out "Client " |> print_out_int clientSocket
            |> print_out (" connected." +:+ nl) in
  let thread := length (clientThreads st) in
  let st := set_threadData clientSocket st in
  if negb (create_r =? 0) then Throws (MkError "Thread could not be created.") st
  else Normal (st |> set_clientThreads (clientThreads st ++ [Spawned])
                  |> set_clientsMap (<[clientSocket := thread]> (clientsMap st))).

(** [Server::startServer] around its call of [startListening]: while
    [startListening] goes on, the control point is [next]; when it throws,
    the [catch] and the question that follows. *)
Definition startServer_after (o : outcome) (next : main_pc) : State :=
  match o with
  | Normal st => set_control next st
  | Throws ex st =>
      st |> print_err (what ex) |> print_err nl
         |> print_out "Do you want to try to start the server again? [Y/N]"
         |> set_control (MPrompt 0)
  end.

Definition is_yes (ans : string) : bool := String.eqb ans "Y" || String.eqb ans "y".
Definition is_no (ans : string) : bool := String.eqb ans "N" || String.eqb ans "n".

(** [Server::startServer]: one iteration of the loop that reads [ans], and
    what follows the loop when the answer is valid. *)
Definition startServer_answer (ans : string) (sock_fd bind_r : Z) (counter : nat)
    (st : State) : State :=
  let st :=
    if (1 <=? counter)%nat
    then print_out "Invalid answer, please enter your answer again: " st
    else st in
  if is_yes ans || is_no ans then
    if is_yes ans then
      match createAndBindSocket sock_fd bind_r (set_clientsMap ∅ st) with
      | Normal st => set_control MStartListening st
      | Throws ex st => set_control (MStartServerThrew ex) st
      end
    else st |> print_out ("Server is shutting down." +:+ nl)
            |> set_control MStartServerReturned
  else set_control (MPrompt (S counter)) st.

(** [pthread_join]: [None] while the thread has not ended; otherwise the
    result, 0 or the error [ESRCH]. *)
Definition ESRCH : Z := 3.

Definition pthread_join_client (thread : nat) (st : State) : option Z :=
  match clientThreads st !! thread with
  | Some (Running f) => match cpc f with CReturn => Some 0 | _ => None end
  | Some Spawned => None
  | None => Some ESRCH
  end.

Definition pthread_join_queue (st : State) : option Z :=
  match messageQueueThread st with
  | Some QReturn => Some 0
  | Some _ => None
  | None => Some ESRCH
  end.

Definition report_join (r : Z) (st : State) : State :=
  if negb (r =? 0) then print_err ("Failed to join thread." +:+ nl) st else st.

(** [std::map] is iterated in the order of its keys. *)
Definition entry_le (a b : Z * nat) : Prop := a.1 ≤ b.1.

#[global] Instance entry_le_dec : RelDecision entry_le.
Proof. intros a b. unfold entry_le. apply _. Defined.

Definition map_entries (m : gmap Z nat) : list (Z * nat) :=
  merge_sort entry_le (map_to_list m).

(** [Server::~Server], one statement at a time. *)
Definition destructor_step (st : State) : option State :=
  match control st with
  | MDtorClients [] => Some (set_control MDtorQueueThread st)
  | MDtorClients ((socket, thread) :: rest) =>
      r ← pthread_join_client thread st;
      Some (st |> report_join r |> os_close socket |> set_control (MDtorClients rest))
  | MDtorQueueThread =>
      r ← pthread_join_queue st;
      Some (st |> report_join r |> set_control MDtorCloseSocket)
  | MDtorCloseSocket =>
      Some (st |> os_close (serverSocket st) |> set_control MDestroyed)
  | _ => None
  end.

(** ** What a run shows *)

(** An operation on [messageQueue]. *)
Inductive queue_op :=
  | OpEmpty (b : bool)
  | OpFront (m : Message)
  | OpPop (m : Message)
  | OpPush (m : Message).

(** [EvQueue who owner op]: thread [who] performed [op] on the queue while
    [owner] held the mutex.  [EvReport m]: the message-queue thread printed
    message [m]. *)
Inductive event :=
  | EvQueue (who : thread_id) (owner : option thread_id) (op : queue_op)
  | EvReport (m : Message).

#[global] Instance thread_id_eq_dec : EqDecision thread_id.
Proof. solve_decision. Defined.

(** ** The message-queue thread *)

Definition is_empty (q : list Message) : bool :=
  match q with [] => true | _ => false end.

(** The line [handleMessageQueue] prints for one message. *)
Definition report (m : Message) (out : string) : string :=
  out |> put_str "Message from Client " |> put_int m.1 |> put_str " : " |> put_str m.2.

(** One statement of [Server::handleMessageQueue].  [None]: the thread cannot
    move (it waits for the mutex, or does not exist), or the statement has
    no defined behaviour ([front] or [pop] on an empty queue, unlocking a
    mutex the thread does not hold). *)
Definition queue_step (st : State) : option (State * list event) :=
  pc ← messageQueueThread st;
  let goto pc' st' := set_messageQueueThread (Some pc') st' in
  match pc with
  | QCheckEmpty =>
      let b := is_empty (messageQueue st) in
      Some (goto (if b then QSleep else QLock) st,
            [EvQueue QueueThread (mutex st) (OpEmpty b)])
  | QSleep => Some (goto QCheckEmpty st, [])
  | QLock =>
      match mutex st with
      | None => Some (st |> set_mutex (Some QueueThread) |> goto QFront, [])
      | Some _ => None
      end
  | QFront =>
      match messageQueue st with
      | m :: _ => Some (goto (QPop m) st, [EvQueue QueueThread (mutex st) (OpFront m)])
      | [] => None
      end
  | QPop clientMessagePair =>
      match messageQueue st with
      | m :: rest =>
          Some (st |> set_messageQueue rest |> goto (QUnlock clientMessagePair),
                [EvQueue QueueThread (mutex st) (OpPop m)])
      | [] => None
      end
  | QUnlock clientMessagePair =>
      if decide (mutex st = Some QueueThread)
      then Some (st |> set_mutex None |> goto (QPrint clientMessagePair), [])
      else None
  | QPrint clientMessagePair =>
      Some (st |> set_cout (report clientMessagePair (cout st)) |> goto QCheckEmpty,
            [EvReport clientMessagePair])
  | QReturn => None
  end.

(** ** The client threads *)

(** The result of one [recv(clientSocket, buffer, sizeof(buffer) - 1, 0)]. *)
Inductive recv_result :=
  | RecvData (data : list ascii)   (* that many bytes arrived *)
  | RecvClosed                     (* 0: the peer closed *)
  | RecvError.                     (* -1 *)

Definition recv_return (r : recv_result) : Z :=
  match r with
  | RecvData data => Z.of_nat (length data)
  | RecvClosed => 0
  | RecvError => -1
  end.

Definition recv_bytes (r : recv_result) : list ascii :=
  match r with RecvData data => data | _ => [] end.

(** [recv] returns between 1 and [sizeof(buffer) - 1] bytes, 0 or -1. *)
Definition recv_possible (r : recv_result) : bool :=
  match r with
  | RecvData data => (1 <=? length data)%nat && (length data <=? BUFFER_SIZE - 1)%nat
  | _ => true
  end.

Definition set_client (t : nat) (f : client_frame) (st : State) : State :=
  set_clientThreads (<[t := Running f]> (clientThreads st)) st.

Definition goto_client (pc : client_pc) (f : client_frame) : client_frame :=
  {| clientSocket := clientSocket f; buffer := buffer f; bytesRead := bytesRead f; cpc := pc |}.

(** [handleClientWrapper]: the thread reads the socket from the
    [PosixThreadData] it points to and enters [handleClient], whose buffer
    starts with the bytes the stack held.  The model gives the thread the
    value last stored in [threadData], which is what it finds there while
    [startListening] runs. *)
Definition client_start (t : nat) (uninit : list ascii) (st : State) : option State :=
  match clientThreads st !! t with
  | Some Spawned =>
      if decide (length uninit = BUFFER_SIZE)
      then Some (set_client t {| clientSocket := threadData st; buffer := uninit;
                                 bytesRead := 0; cpc := CRecv |} st)
      else None
  | _ => None
  end.

(** The loop condition of [Server::handleClient]. *)
Definition client_recv (t : nat) (r : recv_result) (st : State) : option State :=
  match clientThreads st !! t with
  | Some (Running f) =>
      match cpc f with
      | CRecv =>
          if recv_possible r then
            let n := recv_return r in
            Some (set_client t {| clientSocket := clientSocket f;
                                  buffer := recv_into (recv_bytes r) (buffer f);
                                  bytesRead := n;
                                  cpc := if 0 <? n then CLock else CIfDisconnected |} st)
          else None
      | _ => None
      end
  | _ => None
  end.

(** The other statements of [Server::handleClient]. *)
Definition client_step (t : nat) (st : State) : option (State * list event) :=
  match clientThreads st !! t with
  | Some (Running f) =>
      match cpc f with
      | CRecv => None
      | CLock =>
          match mutex st with
          | None => Some (st |> set_mutex (Some (ClientThread t))
                             |> set_client t (goto_client CPush f), [])
          | Some _ => None
          end
      | CPush =>
          payload ← string_of_c_str (buffer f);
          let m := (clientSocket f, payload) in
          Some (st |> set_messageQueue (messageQueue st ++ [m])
                   |> set_client t (goto_client CUnlock f),
                [EvQueue (ClientThread t) (mutex st) (OpPush m)])
      | CUnlock =>
          if decide (mutex st = Some (ClientThread t))
          then Some (st |> set_mutex None |> set_client t (goto_client CMemset f), [])
          else None
      | CMemset =>
          Some (set_client t {| clientSocket := clientSocket f;
                                buffer := memset_zero BUFFER_SIZE;
                                bytesRead := bytesRead f; cpc := CRecv |} st, [])
      | CIfDisconnected =>
          let st :=
            if bytesRead f <=? 0
            then st |> print_out "Client " |> print_out_int (clientSocket f)
                    |> print_out " disconnected." |> print_out nl
            else st in
          Some (set_client t (goto_client CClose f) st, [])
      | CClose =>
          Some (st |> os_close (clientSocket f)
                   |> set_client t (goto_client CReturn f), [])
      | CReturn => None
      end
  | _ => None
  end.

(** ** The transition system *)

(** A transition: which thread moves, with the environment's answers. *)
Inductive action :=
  | Construct (sock_fd bind_r create_r : Z)
  | Listen (listen_r : Z)
  | Accept (accept_r create_r : Z)
  | Answer (ans : string) (sock_fd bind_r : Z)
  | Destroy
  | DtorStep
  | QueueStep
  | ClientStart (t : nat) (uninit : list ascii)
  | ClientRecv (t : nat) (r : recv_result)
  | ClientStep (t : nat).

Definition step (a : action) (st : State) : option (State * list event) :=
  match a with
  | Construct sock_fd bind_r create_r =>
      match control st with
      | MConstruct =>
          match constructor sock_fd bind_r create_r st with
          | Normal st => Some (set_control MStartListening st, [])
          | Throws ex st => Some (set_control (MConstructThrew ex) st, [])
          end
      | _ => None
      end
  | Listen listen_r =>
      match control st with
      | MStartListening =>
          Some (startServer_after (startListening_listen listen_r st) MAcceptLoop, [])
      | _ => None
      end
  | Accept accept_r create_r =>
      match control st with
      | MAcceptLoop =>
          Some (startServer_after (startListening_iteration accept_r create_r st)
                                  MAcceptLoop, [])
      | _ => None
      end
  | Answer ans sock_fd bind_r =>
      match control st with
      | MPrompt counter => Some (startServer_answer ans sock_fd bind_r counter st, [])
      | _ => None
      end
  | Destroy =>
      match control st with
      | MStartServerReturned | MStartServerThrew _ =>
          Some (set_control (MDtorClients (map_entries (clientsMap st))) st, [])
      | _ => None
      end
  | DtorStep => st' ← destructor_step st; Some (st', [])
  | QueueStep => queue_step st
  | ClientStart t uninit => st' ← client_start t uninit st; Some (st', [])
  | ClientRecv t r => st' ← client_recv t r st; Some (st', [])
  | ClientStep t => client_step t st
  end.

(** A run: the transitions of a trace one after the other, with the events
    they show. *)
Fixpoint run (tr : list action) (st : State) : option (State * list event) :=
  match tr with
  | [] => Some (st, [])
  | a :: tr' =>
      match step a st with
      | Some (st', evs) =>
          match run tr' st' with
          | Some (st'', evs') => Some (st'', evs ++ evs')
          | None => None
          end
      | None => None
      end
  end.

(** What a run shows of the queue: the messages pushed, the messages popped
    and the messages reported, each in the order of occurrence. *)
Definition pushed_of (e : event) : list Message :=
  match e with EvQueue _ _ (OpPush m) => [m] | _ => [] end.
Definition popped_of (e : event) : list Message :=
  match e with EvQueue _ _ (OpPop m) => [m] | _ => [] end.
Definition reported_of (e : event) : list Message :=
  match e with EvReport m => [m] | _ => [] end.

Definition pushed (evs : list event) : list Message := concat (map pushed_of evs).
Definition popped (evs : list event) : list Message := concat (map popped_of evs).
Definition reported (evs : list event) : list Message := concat (map reported_of evs).

(** ** Definitions used to state the properties *)

(** The message the message-queue thread has popped and not yet printed. *)
Definition in_hand (st : State) : list Message :=
  match messageQueueThread st with
  | Some (QUnlock m) | Some (QPrint m) => [m]
  | _ => []
  end.

(** The characters of a byte sequence before its first NUL (all of them when
    it has none). *)
Fixpoint before_NUL (data : list ascii) : list ascii :=
  match data with
  | [] => []
  | c :: rest => if is_NUL c then [] else c :: before_NUL rest
  end.

(** The report line as the specification words it:
    ["Message from Client <connectionId>: <payload>"]. *)
Definition spec_report_line (connectionId : Z) (payload : string) : string :=
  "Message from Client " +:+ show_int connectionId +:+ ": " +:+ payload.

(** A client thread has ended when it is at the end of [handleClient]. *)
Definition client_returned (t : nat) (st : State) : Prop :=
  ∃ f, clientThreads st !! t = Some (Running f) ∧ cpc f = CReturn.

(** What the specification asks of every queue operation, the emptiness
    check included: it is made by the holder of the mutex. *)
Definition spec_locked_access (e : event) : Prop :=
  match e with
  | EvQueue who owner _ => owner = Some who
  | EvReport _ => True
  end.

(** What the code does: an emptiness check is made without the mutex, any
    other queue operation by the holder of the mutex. *)
Definition access_as_coded (e : event) : Prop :=
  match e with
  | EvQueue who owner (OpEmpty _) => owner ≠ Some who
  | EvQueue who owner _ => owner = Some who
  | EvReport _ => True
  end.

(** The control points between a thread's lock and its unlock. *)
Definition queue_in_section (st : State) : bool :=
  match messageQueueThread st with
  | Some QFront | Some (QPop _) | Some (QUnlock _) => true
  | _ => false
  end.

Definition frame_in_section (c : option client_thread) : bool :=
  match c with
  | Some (Running f) => match cpc f with CPush | CUnlock => true | _ => false end
  | _ => false
  end.

Definition in_section (who : thread_id) (st : State) : bool :=
  match who with
  | MainThread => false
  | QueueThread => queue_in_section st
  | ClientThread t => frame_in_section (clientThreads st !! t)
  end.

(** *** Invariants *)

(** The message-queue thread exists once the constructor has succeeded, is
    never at the end of [handleMessageQueue], and the destructor is never
    past its join of that thread. *)
Definition queue_thread_inv (st : State) : Prop :=
  messageQueueThread st ≠ Some QReturn ∧
  (messageQueueThread st = None →
   control st = MConstruct ∨ ∃ ex, control st = MConstructThrew ex) ∧
  control st ≠ MDtorCloseSocket ∧
  control st ≠ MDestroyed.

(** Between its emptiness check and its [pop] the message-queue thread finds
    the queue non-empty, and the message it copied with [front] is still the
    front. *)
Definition fifo_inv (st : State) : Prop :=
  (control st = MConstruct → messageQueueThread st = None) ∧
  match messageQueueThread st with
  | Some QLock | Some QFront => messageQueue st ≠ []
  | Some (QPop m) => head (messageQueue st) = Some m
  | _ => True
  end.

(** What one transition does to the queue and to the message in hand. *)
Definition fifo_step (st : State) (evs : list event) (st' : State) : Prop :=
  messageQueue st ++ pushed evs = popped evs ++ messageQueue st' ∧
  in_hand st ++ popped evs = reported evs ++ in_hand st'.

(** The mutex is held by a thread exactly when that thread is between its
    lock and its unlock. *)
Definition mutex_inv (st : State) : Prop :=
  (control st = MConstruct → messageQueueThread st = None) ∧
  ∀ who, mutex st = Some who ↔ in_section who st = true.

(** *** Sample inputs *)

Definition zeros : list ascii := memset_zero BUFFER_SIZE.

Definition bytes (s : string) : list ascii := String.list_ascii_of_string s.

(** Port 9000; the listening socket is descriptor 3. *)
Definition boot : list action := [Construct 3 0 0; Listen 0].

(** The final state of a run from the initial state, for sample runs. *)
Definition final (tr : list action) : State :=
  match run tr (initial 9000 (-1)) with
  | Some (st, _) => st
  | None => initial 9000 (-1)
  end.

Definition shown (tr : list action) : list event :=
  match run tr (initial 9000 (-1)) with
  | Some (_, evs) => evs
  | None => []
  end.

(** A run in which client 4 sends ["hello\n"] and the message-queue thread is
    about to print it. *)
Definition hello_run : list action :=
  boot ++ [Accept 4 0; ClientStart 0 zeros;
           ClientRecv 0 (RecvData (bytes ("hello" +:+ nl)));
           ClientStep 0; ClientStep 0; ClientStep 0;
           QueueStep; QueueStep; QueueStep; QueueStep; QueueStep].

(** Eleven clients connect one after the other and none disconnects. *)
Definition eleven_clients : list action :=
  boot ++ map (λ fd, Accept fd 0) [4; 5; 6; 7; 8; 9; 10; 11; 12; 13; 14].

(** Client 4 connects and its thread starts; the stack of the new thread
    holds zeros. *)
Definition connect_run : list action := boot ++ [Accept 4 0; ClientStart 0 zeros].

(** The frame of [handleClient] after [connect_run]. *)
Definition connected_frame : client_frame :=
  {| clientSocket := 4; buffer := zeros; bytesRead := 0; cpc := CRecv |}.

(** The peer of client 4 closes the connection at once. *)
Definition disconnect_run : list action :=
  connect_run ++ [ClientRecv 0 RecvClosed; ClientStep 0; ClientStep 0].

(** The three bytes 'a', 0, 'b'. *)
Definition a0b : list ascii := ["a"%char; NUL; "b"%char].


(** Client 4 sends ["hi"], which is enqueued while the message-queue thread
    sleeps; then the creation of the thread for the next client fails and the
    operator is asked whether to restart. *)
Definition restart_run : list action :=
  connect_run ++
  [QueueStep; QueueStep;
   ClientRecv 0 (RecvData (bytes "hi"));
   ClientStep 0; ClientStep 0; ClientStep 0; ClientStep 0;
   Accept 5 11].

(** Client 4 sends ["hi"], which is enqueued while the message-queue thread
    sleeps, and leaves; then [accept] fails and so does the creation of the
    thread: the operator is asked whether to restart while no connection is
    open. *)
Definition quiet_prompt_run : list action :=
  connect_run ++
  [QueueStep; QueueStep;
   ClientRecv 0 (RecvData (bytes "hi"));
   ClientStep 0; ClientStep 0; ClientStep 0; ClientStep 0;
   ClientRecv 0 RecvClosed; ClientStep 0; ClientStep 0;
   Accept (-1) 11].

(** The creation of a client thread fails, the operator answers N, and the
    destructor runs up to its join of the message-queue thread. *)
Definition shutdown_run : list action :=
  boot ++ [Accept 4 11; Answer "N" 0 0; Destroy; DtorStep].

(** Clients 4 and 5 connect; 5 sends ["world\n"], then 4 sends ["hello\n"],
    then 5 sends ["again\n"]; the message-queue thread reports the first two
    messages and pops the third. *)
Definition two_clients_run : list action :=
  boot ++
  [Accept 4 0; ClientStart 0 zeros; Accept 5 0; ClientStart 1 zeros;
   ClientRecv 1 (RecvData (bytes ("world" +:+ nl)));
   ClientRecv 0 (RecvData (bytes ("hello" +:+ nl)));
   ClientStep 1; ClientStep 1; ClientStep 1; ClientStep 1;
   QueueStep;
   ClientStep 0; ClientStep 0; ClientStep 0; ClientStep 0;
   QueueStep; QueueStep; QueueStep; QueueStep; QueueStep;
   ClientRecv 1 (RecvData (bytes ("again" +:+ nl)));
   ClientStep 1; ClientStep 1; ClientStep 1;
   QueueStep; QueueStep; QueueStep; QueueStep; QueueStep; QueueStep;
   QueueStep; QueueStep; QueueStep; QueueStep].

(** ** Definitions used to state further properties *)

(** The source never initialises the member [mutex].  The state on entry to
    the constructor when the memory of the mutex reads as [content]: as an
    unlocked mutex ([None]), or as one that is locked. *)
Definition initial_with_mutex (content : option thread_id) (Port uninit_socket : Z) :
    State :=
  set_mutex content (initial Port uninit_socket).

(** A thread between its lock and its unlock holds the mutex. *)
Definition section_inv (st : State) : Prop :=
  (control st = MConstruct → messageQueueThread st = None) ∧
  ∀ who, in_section who st = true → mutex st = Some who.

(** Every socket that is not a connection is the server's socket, bound
    to, or listening on, the server's port. *)
Definition one_server_socket (st : State) : Prop :=
  ∀ fd s, sockets st !! fd = Some s → s ≠ SockConnected →
          fd = serverSocket st ∧
          (s = SockBound (htons (serverPort st)) ∨
           s = SockListening (htons (serverPort st)) MAX_CLIENTS).

(** The exceptions that leave the constructor, and [startServer]. *)
Definition constructor_errors : list string :=
  ["Socket could not be created."; "Unable to bind socket.";
   "Message Queue Thread could not be created."].

Definition restart_errors : list string :=
  ["Socket could not be created."; "Unable to bind socket."].

Definition escaped_error_known (st : State) : Prop :=
  match control st with
  | MConstructThrew ex => what ex ∈ constructor_errors
  | MStartServerThrew ex => what ex ∈ restart_errors
  | _ => True
  end.





(** A buffer of the declared size whose last byte, [buffer[255]], which
    [recv] never writes, is zero. *)
Definition zero_terminated (buf : list ascii) : Prop :=
  length buf = BUFFER_SIZE ∧ buf !! (BUFFER_SIZE - 1)%nat = Some NUL.

(** A transition in which, if it starts a client thread, the stack holds a
    zero where the last byte of the thread's buffer lies. *)
Definition starts_terminated (a : action) : Prop :=
  match a with
  | ClientStart _ uninit => zero_terminated uninit
  | _ => True
  end.

(** The buffer of every running client thread ends with a zero. *)
Definition buffers_terminated (st : State) : Prop :=
  ∀ t f, clientThreads st !! t = Some (Running f) → zero_terminated (buffer f).

(** How transition [a] may change the frame of a client thread: a thread
    that starts gets the buffer the transition names; the buffer of a running
    thread that ends with a zero still does. *)
Definition frame_moves (a : action) (c : client_thread) (f : client_frame) : Prop :=
  match c with
  | Spawned => ∃ t, a = ClientStart t (buffer f)
  | Running f0 => zero_terminated (buffer f0) → zero_terminated (buffer f)
  end.

(** A payload fits in one read. *)
Definition fits_one_read (m : Message) : Prop :=
  (String.length m.2 ≤ BUFFER_SIZE - 1)%nat.

(** Every thread recorded in [clientsMap], or still to be joined by the
    destructor, exists, and no thread is recorded under two sockets. *)
Definition registry_inv (st : State) : Prop :=
  (∀ s t, clientsMap st !! s = Some t → (t < length (clientThreads st))%nat) ∧
  (∀ s1 s2 t, clientsMap st !! s1 = Some t → clientsMap st !! s2 = Some t → s1 = s2) ∧
  (∀ rest, control st = MDtorClients rest →
           ∀ s t, (s, t) ∈ rest → (t < length (clientThreads st))%nat).

(** A transition that is not the restart of the server. *)
Definition no_restart (a : action) : Prop :=
  match a with
  | Answer ans _ _ => is_yes ans = false
  | _ => True
  end.

(** [close] applied to the sockets of a list of registry entries. *)
Definition close_entries (rest : list (Z * nat)) (m : gmap Z sock_state) :
    gmap Z sock_state :=
  foldl (λ m e, delete e.1 m) m rest.

(** The output after the reports of a list of messages. *)
Definition reports (q : list Message) (out : string) : string :=
  foldl (λ out m, report m out) out q.

(** One iteration of the loop of [handleClient] on thread [t], in which
    [recv] returns [data]; the iterations for a list of chunks. *)
Definition read_chunk (t : nat) (data : list ascii) : list action :=
  ClientRecv t (RecvData data) :: replicate 4 (ClientStep t).

Definition read_chunks (t : nat) (chunks : list (list ascii)) : list action :=
  concat (map (read_chunk t) chunks).

(** What [recv] can return in one read. *)
Definition chunk_ok (data : list ascii) : Prop :=
  (1 ≤ length data ≤ BUFFER_SIZE - 1)%nat.

(** The message [handleClient] makes of a chunk read into a cleared buffer. *)
Definition chunk_message (socket : Z) (data : list ascii) : Message :=
  (socket, String.string_of_list_ascii (before_NUL data)).

(** The accept loop accepting the connections [fds] one after the other,
    each with its thread created. *)
Definition accepts (fds : list Z) : list action := map (λ fd, Accept fd 0) fds.

(** *** Further sample inputs *)

(** The thread of the second client cannot be created, the operator asks for
    a restart, and [bind] fails. *)
Definition failed_restart_run : list action := restart_run ++ [Answer "y" 3 (-1)].

(** The only client is gone, the creation of the next thread fails and the
    operator answers N; then the destructor starts. *)
Definition returned_run : list action :=
  disconnect_run ++ [Accept 5 11; Answer "N" 0 0].

Definition destroy_run : list action := returned_run ++ [Destroy].

(** What follows [connect_run] up to the second statement of the destructor:
    the client disconnects, the creation of the next thread fails, the
    operator answers N. *)
Definition wind_down : list action :=
  [ClientRecv 0 RecvClosed; ClientStep 0; ClientStep 0;
   Accept 5 11; Answer "N" 0 0; Destroy; DtorStep; DtorStep].

(** A stack that holds the seven bytes ["..stale"] followed by zeros. *)
Definition stale_stack : list ascii := bytes "..stale" ++ replicate 249 NUL.

(** Three chunks, the second with a zero byte in it. *)
Definition three_chunks : list (list ascii) := [bytes "one"; a0b; bytes "three"].

(** The server is restarted after [restart_run] and listens again, on
    descriptor 7. *)
Definition restarted_run : list action := restart_run ++ [Answer "Y" 7 0; Listen 0].

(** Client 4 has received ["hi"] and locked the mutex; it is about to
    push. *)
Definition locked_run : list action :=
  connect_run ++ [ClientRecv 0 (RecvData (bytes "hi")); ClientStep 0].

(** Client 4 connects; its thread starts on [stale_stack], reads ["hi"] and
    pushes. *)
Definition stale_run : list action :=
  boot ++ [Accept 4 0; ClientStart 0 stale_stack;
           ClientRecv 0 (RecvData (bytes "hi")); ClientStep 0; ClientStep 0].

(** * Properties *)

(** ** Basic facts *)

Example show_int_ex : show_int 42 = "42" ∧ show_int (-1) = "-1" ∧ show_int 0 = "0".
Proof. repeat split. Qed.

Example c_str_ex : string_of_c_str (bytes "ab" ++ [NUL; "c"%char]) = Some "ab".
Proof. reflexivity. Qed.

Lemma append_assoc (a b c : string) : (a +:+ b) +:+ c = a +:+ (b +:+ c).
Proof.
  induction a as [|x a IH]; [done|].
  change (String x ((a +:+ b) +:+ c) = String x (a +:+ (b +:+ c))).
  by rewrite IH.
Qed.

Lemma report_eq (m : Message) (out : string) :
  report m out = out +:+ "Message from Client " +:+ show_int m.1 +:+ " : " +:+ m.2.
Proof. unfold report, put_str, put_int. by rewrite !append_assoc. Qed.

(** ** The report line *)

(** C4, as the code has it: when the message-queue thread prints the message
    [(id, payload)] it has dequeued, it appends to the standard output exactly
    ["Message from Client <id> : <payload>"], with a space on both sides of
    the colon, and nothing else. *)
Theorem report_line_format (st : State) (id : Z) (payload : string) :
  messageQueueThread st = Some (QPrint (id, payload)) →
  ∃ st', step QueueStep st = Some (st', [EvReport (id, payload)]) ∧
         cout st' = cout st +:+ "Message from Client " +:+ show_int id
                            +:+ " : " +:+ payload ∧
         cerr st' = cerr st ∧
         messageQueueThread st' = Some QCheckEmpty.
Proof.
  intros Hpc. eexists. simpl. unfold queue_step. rewrite Hpc. simpl.
  split; [reflexivity|]. simpl. by rewrite report_eq.
Qed.

Lemma report_line_format_witness :
  messageQueueThread (final hello_run) = Some (QPrint (4, "hello" +:+ nl)) ∧
  ∃ st', step QueueStep (final hello_run) = Some (st', [EvReport (4, "hello" +:+ nl)]) ∧
         cout st' = cout (final hello_run) +:+ "Message from Client " +:+ show_int 4
                            +:+ " : " +:+ ("hello" +:+ nl) ∧
         cerr st' = cerr (final hello_run) ∧
         messageQueueThread st' = Some QCheckEmpty.
Proof.
  split; [vm_compute; reflexivity|].
  apply (report_line_format (final hello_run) 4 ("hello" +:+ nl)).
  vm_compute; reflexivity.
Defined.

(** C4, as the specification words it, fails: for the message [(4, "hello\n")]
    the line printed is not ["Message from Client 4: hello\n"]. *)
Lemma report_line_not_spec :
  report (4, "hello" +:+ nl) "" = "Message from Client 4 : hello" +:+ nl ∧
  report (4, "hello" +:+ nl) "" ≠ spec_report_line 4 ("hello" +:+ nl).
Proof. split; [reflexivity | discriminate]. Qed.

(** ** The accept loop *)

Lemma eqb_minus_one (fd : Z) : fd ≠ -1 → (fd =? -1) = false.
Proof. intros. by apply Z.eqb_neq. Qed.

Lemma eqb_zero (r : Z) : r ≠ 0 → negb (r =? 0) = true.
Proof. intros. apply negb_true_iff. by apply Z.eqb_neq. Qed.

Lemma live_connections_accept (fd : Z) (st : State) :
  sockets st !! fd = None →
  live_connections (os_accept fd st) = S (live_connections st).
Proof.
  intros Hfresh. unfold live_connections, os_accept. simpl.
  rewrite map_filter_insert_True by done.
  apply map_size_insert_None, map_lookup_filter_None. by left.
Qed.

(** C9: when [accept] returns -1 the iteration does not skip to the next
    [accept]: it reports the failure, stores -1 in [threadData], creates a
    client thread and, the creation having succeeded, records the thread
    under the key -1 in [clientsMap]; the thread, once started, runs
    [handleClient] on the socket -1.  No socket was opened. *)
Theorem accept_failure_still_spawns (st : State) (uninit : list ascii) :
  control st = MAcceptLoop →
  length uninit = BUFFER_SIZE →
  ∃ st1 st2,
    step (Accept (-1) 0) st = Some (st1, []) ∧
    control st1 = MAcceptLoop ∧
    cerr st1 = cerr st +:+ "Failed to accept request from a client." +:+ nl ∧
    sockets st1 = sockets st ∧
    clientThreads st1 = clientThreads st ++ [Spawned] ∧
    threadData st1 = -1 ∧
    clientsMap st1 = <[-1 := length (clientThreads st)]> (clientsMap st) ∧
    step (ClientStart (length (clientThreads st)) uninit) st1 = Some (st2, []) ∧
    clientThreads st2 !! length (clientThreads st) =
      Some (Running {| clientSocket := -1; buffer := uninit;
                       bytesRead := 0; cpc := CRecv |}).
Proof.
  intros Hpc Hlen. do 2 eexists.
  split. { simpl. rewrite Hpc. reflexivity. }
  simpl. split; [done|].
  split. { unfold put_str. by rewrite append_assoc. }
  do 4 (split; [done|]).
  unfold client_start. simpl.
  rewrite list_lookup_middle by done.
  rewrite decide_True by done. simpl.
  split; [reflexivity|]. simpl.
  apply list_lookup_insert_eq. rewrite length_app. simpl. lia.
Qed.

Lemma accept_failure_still_spawns_witness :
  control (final boot) = MAcceptLoop ∧
  length zeros = BUFFER_SIZE ∧
  ∃ st1 st2,
    step (Accept (-1) 0) (final boot) = Some (st1, []) ∧
    control st1 = MAcceptLoop ∧
    cerr st1 = cerr (final boot) +:+ "Failed to accept request from a client." +:+ nl ∧
    sockets st1 = sockets (final boot) ∧
    clientThreads st1 = clientThreads (final boot) ++ [Spawned] ∧
    threadData st1 = -1 ∧
    clientsMap st1 = <[-1 := length (clientThreads (final boot))]> (clientsMap (final boot)) ∧
    step (ClientStart (length (clientThreads (final boot))) zeros) st1 = Some (st2, []) ∧
    clientThreads st2 !! length (clientThreads (final boot)) =
      Some (Running {| clientSocket := -1; buffer := zeros;
                       bytesRead := 0; cpc := CRecv |}).
Proof.
  split; [reflexivity|]. split; [reflexivity|].
  apply (accept_failure_still_spawns (final boot) zeros); reflexivity.
Defined.

(** C8 fails on the code: when [pthread_create] fails after a successful
    [accept], [startListening] throws at once; the exception is caught and
    logged by [startServer], and the accepted socket is still open. *)
Theorem spawn_failure_leaves_socket_open (st : State) (fd create_r : Z) :
  control st = MAcceptLoop →
  fd ≠ -1 →
  create_r ≠ 0 →
  ∃ st', step (Accept fd create_r) st = Some (st', []) ∧
         control st' = MPrompt 0 ∧
         cerr st' = cerr st +:+ "Thread could not be created." +:+ nl ∧
         sockets st' !! fd = Some SockConnected ∧
         clientsMap st' = clientsMap st ∧
         clientThreads st' = clientThreads st.
Proof.
  intros Hpc Hfd Hr. eexists.
  split. { simpl. rewrite Hpc. reflexivity. }
  unfold startListening_iteration.
  rewrite (eqb_minus_one fd Hfd), (eqb_zero create_r Hr). simpl.
  split; [done|].
  split. { unfold put_str. by rewrite append_assoc. }
  split; [apply lookup_insert_eq | done].
Qed.

Lemma spawn_failure_leaves_socket_open_witness :
  control (final boot) = MAcceptLoop ∧ 4 ≠ -1 ∧ 11 ≠ 0 ∧
  ∃ st', step (Accept 4 11) (final boot) = Some (st', []) ∧
         control st' = MPrompt 0 ∧
         cerr st' = cerr (final boot) +:+ "Thread could not be created." +:+ nl ∧
         sockets st' !! 4 = Some SockConnected ∧
         clientsMap st' = clientsMap (final boot) ∧
         clientThreads st' = clientThreads (final boot).
Proof.
  split; [reflexivity|]. split; [lia|]. split; [lia|].
  apply (spawn_failure_leaves_socket_open (final boot) 4 11); [reflexivity | lia | lia].
Defined.

(** C6, as the code has it: the accept loop has no limit.  Whatever the
    number of open connections, a connection that [accept] returns (with the
    thread created) stays open, is recorded in [clientsMap] with a new client
    thread, and the loop goes on; the number of open connections grows by
    one. *)
Theorem accept_never_refuses (st : State) (fd : Z) :
  control st = MAcceptLoop →
  fd ≠ -1 →
  sockets st !! fd = None →
  ∃ st', step (Accept fd 0) st = Some (st', []) ∧
         control st' = MAcceptLoop ∧
         sockets st' = <[fd := SockConnected]> (sockets st) ∧
         live_connections st' = S (live_connections st) ∧
         clientsMap st' !! fd = Some (length (clientThreads st)) ∧
         clientThreads st' = clientThreads st ++ [Spawned].
Proof.
  intros Hpc Hfd Hfresh. eexists.
  split. { simpl. rewrite Hpc. reflexivity. }
  unfold startListening_iteration. rewrite (eqb_minus_one fd Hfd). simpl.
  do 2 (split; [done|]).
  split. { by apply (live_connections_accept fd st). }
  split; [apply lookup_insert_eq | done].
Qed.

Lemma accept_never_refuses_witness :
  control (final (boot ++ [Accept 4 0])) = MAcceptLoop ∧ 5 ≠ -1 ∧
  sockets (final (boot ++ [Accept 4 0])) !! 5 = None ∧
  ∃ st', step (Accept 5 0) (final (boot ++ [Accept 4 0])) = Some (st', []) ∧
         control st' = MAcceptLoop ∧
         sockets st' = <[5 := SockConnected]> (sockets (final (boot ++ [Accept 4 0]))) ∧
         live_connections st' = S (live_connections (final (boot ++ [Accept 4 0]))) ∧
         clientsMap st' !! 5 = Some (length (clientThreads (final (boot ++ [Accept 4 0])))) ∧
         clientThreads st' = clientThreads (final (boot ++ [Accept 4 0])) ++ [Spawned].
Proof.
  split; [reflexivity|]. split; [lia|]. split; [reflexivity|].
  apply (accept_never_refuses (final (boot ++ [Accept 4 0])) 5); [reflexivity | lia | reflexivity].
Defined.

(** C6, as the specification words it, fails: after eleven accepted
    connections, eleven are open at once, more than [MAX_CLIENTS], and all of
    them are recorded. *)
Lemma connections_exceed_MAX_CLIENTS :
  ∃ st evs, run eleven_clients (initial 9000 (-1)) = Some (st, evs) ∧
            live_connections st = 11%nat ∧
            size (clientsMap st) = 11%nat ∧
            ¬ (Z.of_nat (live_connections st) ≤ MAX_CLIENTS).
Proof.
  eexists _, _. split; [vm_compute; reflexivity|].
  split; [vm_compute; reflexivity|]. split; [vm_compute; reflexivity|].
  vm_compute. intros H. by apply H.
Qed.

(** ** A client thread *)

Lemma lookup_set_client (t : nat) (f : client_frame) (st : State) (c : client_thread) :
  clientThreads st !! t = Some c →
  clientThreads (set_client t f st) !! t = Some (Running f).
Proof.
  intros Hc. simpl. apply list_lookup_insert_eq. by eapply lookup_lt_Some.
Qed.

(** C5, as the code has it: when [recv] returns zero or an error, the loop of
    [handleClient] ends; the thread prints the disconnection, closes its
    socket and returns, and attempts no further read.  It leaves [clientsMap]
    as it was: the entry of the connection is not removed. *)
Theorem client_disconnect (st : State) (t : nat) (f : client_frame) (r : recv_result) :
  clientThreads st !! t = Some (Running f) →
  cpc f = CRecv →
  r = RecvClosed ∨ r = RecvError →
  ∃ st', run [ClientRecv t r; ClientStep t; ClientStep t] st = Some (st', []) ∧
         client_returned t st' ∧
         (∀ r', step (ClientRecv t r') st' = None) ∧
         sockets st' = delete (clientSocket f) (sockets st) ∧
         cout st' = cout st +:+ "Client " +:+ show_int (clientSocket f)
                            +:+ " disconnected." +:+ nl ∧
         clientsMap st' = clientsMap st.
Proof.
  intros Hf Hpc Hr.
  assert (Hret : recv_possible r = true ∧ recv_bytes r = [] ∧
                 (0 <? recv_return r) = false ∧ (recv_return r <=? 0) = true)
    by (destruct Hr; subst r; done).
  destruct Hret as (Hposs & Hbytes & Hpos & Hneg).
  set (f1 := {| clientSocket := clientSocket f; buffer := buffer f;
                bytesRead := recv_return r; cpc := CIfDisconnected |}).
  assert (H1 : step (ClientRecv t r) st = Some (set_client t f1 st, [])).
  { simpl. unfold client_recv. rewrite Hf, Hpc, Hposs, Hbytes, Hpos. simpl.
    unfold recv_into. simpl. by rewrite drop_0. }
  set (st1 := set_client t f1 st) in *.
  assert (Hf1 : clientThreads st1 !! t = Some (Running f1))
    by (by eapply lookup_set_client).
  set (st2 := st1 |> print_out "Client " |> print_out_int (clientSocket f)
                  |> print_out " disconnected." |> print_out nl
                  |> set_client t (goto_client CClose f1)).
  assert (H2 : step (ClientStep t) st1 = Some (st2, [])).
  { simpl. unfold client_step. rewrite Hf1. simpl. by rewrite Hneg. }
  assert (Hf2 : clientThreads st2 !! t = Some (Running (goto_client CClose f1)))
    by (by eapply lookup_set_client).
  set (st3 := st2 |> os_close (clientSocket f)
                  |> set_client t (goto_client CReturn (goto_client CClose f1))).
  assert (H3 : step (ClientStep t) st2 = Some (st3, [])).
  { simpl. unfold client_step. rewrite Hf2. reflexivity. }
  assert (Hf3 : clientThreads st3 !! t =
                Some (Running (goto_client CReturn (goto_client CClose f1)))).
  { eapply (lookup_set_client _ _ (os_close (clientSocket f) st2)). exact Hf2. }
  exists st3. split.
  { unfold run. rewrite H1, H2, H3. reflexivity. }
  split. { eexists. split; [exact Hf3 | reflexivity]. }
  split. { intros r'. simpl. unfold client_recv. rewrite Hf3. reflexivity. }
  split; [reflexivity|]. split; [|reflexivity].
  simpl. unfold put_str, put_int. by rewrite !append_assoc.
Qed.

Lemma client_disconnect_witness :
  clientThreads (final connect_run) !! 0%nat = Some (Running connected_frame) ∧
  cpc connected_frame = CRecv ∧
  (RecvClosed = RecvClosed ∨ RecvClosed = RecvError) ∧
  ∃ st', run [ClientRecv 0 RecvClosed; ClientStep 0; ClientStep 0] (final connect_run)
           = Some (st', []) ∧
         client_returned 0 st' ∧
         (∀ r', step (ClientRecv 0 r') st' = None) ∧
         sockets st' = delete (clientSocket connected_frame) (sockets (final connect_run)) ∧
         cout st' = cout (final connect_run) +:+ "Client "
                      +:+ show_int (clientSocket connected_frame)
                      +:+ " disconnected." +:+ nl ∧
         clientsMap st' = clientsMap (final connect_run).
Proof.
  split; [reflexivity|]. split; [reflexivity|]. split; [by left|].
  apply (client_disconnect (final connect_run) 0 connected_frame RecvClosed);
    [reflexivity | reflexivity | by left].
Defined.

(** C5, as the specification words it, fails: after client 4 has
    disconnected and its thread has returned, the socket is closed but
    [clientsMap] still holds the entry for 4. *)
Lemma disconnected_client_stays_registered :
  ∃ st evs, run disconnect_run (initial 9000 (-1)) = Some (st, evs) ∧
            client_returned 0 st ∧
            sockets st !! 4 = None ∧
            clientsMap st !! 4 = Some 0%nat.
Proof.
  eexists _, _. split; [vm_compute; reflexivity|].
  split. { eexists. split; vm_compute; reflexivity. }
  split; vm_compute; reflexivity.
Qed.

(** *** What one read enqueues *)

Lemma c_str_chars_app (data rest : list ascii) :
  c_str_chars (data ++ NUL :: rest) = Some (before_NUL data).
Proof.
  induction data as [|c data IH]; simpl; [done|].
  destruct (is_NUL c); [done|]. by rewrite IH.
Qed.

Lemma c_str_recv_zeroed (data : list ascii) :
  (length data < BUFFER_SIZE)%nat →
  string_of_c_str (recv_into data (memset_zero BUFFER_SIZE))
  = Some (String.string_of_list_ascii (before_NUL data)).
Proof.
  intros Hlen. unfold string_of_c_str, recv_into, memset_zero.
  rewrite drop_replicate.
  destruct (BUFFER_SIZE - length data)%nat as [|k] eqn:Hk; [lia|].
  simpl. by rewrite c_str_chars_app.
Qed.





(** ** Restart *)

(** C3, as the code has it: when the operator answers Y (or y) at the prompt
    and [socket], [bind] and [listen] succeed, the server is back in its
    accept loop on a new socket listening on the same port, with an empty
    [clientsMap].  The message queue is not reset: the restart leaves it as
    it was, and the client threads created before the restart remain. *)
Theorem restart_keeps_queue (st : State) (counter : nat) (ans : string)
    (sock_fd bind_r listen_r : Z) :
  control st = MPrompt counter →
  is_yes ans = true →
  sock_fd ≠ -1 → bind_r ≠ -1 → listen_r ≠ -1 →
  ∃ st', run [Answer ans sock_fd bind_r; Listen listen_r] st = Some (st', []) ∧
         control st' = MAcceptLoop ∧
         clientsMap st' = ∅ ∧
         serverSocket st' = sock_fd ∧
         serverPort st' = serverPort st ∧
         sockets st' !! sock_fd
           = Some (SockListening (htons (serverPort st)) MAX_CLIENTS) ∧
         messageQueue st' = messageQueue st ∧
         clientThreads st' = clientThreads st.
Proof.
  intros Hpc Hyes Hsock Hbind Hlisten.
  eexists. split.
  { unfold run, step. rewrite Hpc. unfold startServer_answer. rewrite Hyes.
    unfold createAndBindSocket.
    rewrite (eqb_minus_one _ Hsock), (eqb_minus_one _ Hbind).
    cbn [orb startServer_after control set_control].
    unfold startListening_listen. rewrite (eqb_minus_one _ Hlisten).
    reflexivity. }
  destruct (1 <=? counter)%nat; simpl; (do 4 (split; [done|])); (split; [|done]);
    by rewrite lookup_alter_eq, !lookup_insert_eq.
Qed.

Lemma restart_keeps_queue_witness :
  control (final quiet_prompt_run) = MPrompt 0 ∧
  is_yes "Y" = true ∧
  3 ≠ -1 ∧ 0 ≠ -1 ∧ 0 ≠ -1 ∧
  ∃ st', run [Answer "Y" 3 0; Listen 0] (final quiet_prompt_run) = Some (st', []) ∧
         control st' = MAcceptLoop ∧
         clientsMap st' = ∅ ∧
         serverSocket st' = 3 ∧
         serverPort st' = serverPort (final quiet_prompt_run) ∧
         sockets st' !! 3
           = Some (SockListening (htons (serverPort (final quiet_prompt_run))) MAX_CLIENTS) ∧
         messageQueue st' = messageQueue (final quiet_prompt_run) ∧
         clientThreads st' = clientThreads (final quiet_prompt_run).
Proof.
  split; [reflexivity|]. split; [reflexivity|].
  split; [lia|]. split; [lia|]. split; [lia|].
  apply (restart_keeps_queue (final quiet_prompt_run) 0 "Y" 3 0 0);
    [reflexivity | reflexivity | lia | lia | lia].
Defined.

(** C3, as the specification words it, fails: the operator is asked while no
    connection is open, so that the new socket can be bound to the port;
    after the restart the server listens again and [clientsMap] is empty, but
    the message queue still holds the message enqueued before the restart. *)
Lemma queue_not_empty_after_restart :
  ∃ st evs, run (quiet_prompt_run ++ [Answer "Y" 3 0; Listen 0]) (initial 9000 (-1))
              = Some (st, evs) ∧
            live_connections (final quiet_prompt_run) = 0%nat ∧
            control st = MAcceptLoop ∧
            clientsMap st = ∅ ∧
            messageQueue st = [(4, "hi")] ∧
            messageQueue st ≠ [].
Proof.
  eexists _, _. split; [vm_compute; reflexivity|].
  split; [vm_compute; reflexivity|].
  split; [vm_compute; reflexivity|]. split; [vm_compute; reflexivity|].
  split; [vm_compute; reflexivity|]. vm_compute. discriminate.
Qed.

(** ** Invariants of the transition system *)

(** An invariant of the transitions that holds initially holds after every
    run. *)
Lemma run_invariant (I : State → Prop) :
  (∀ a st st' evs, step a st = Some (st', evs) → I st → I st') →
  ∀ tr st st' evs, run tr st = Some (st', evs) → I st → I st'.
Proof.
  intros Hstep tr. induction tr as [|a tr IH]; intros st st' evs Hrun HI; simpl in Hrun.
  - by simplify_eq.
  - destruct (step a st) as [[st1 evs1]|] eqn:Ha; [|done].
    destruct (run tr st1) as [[st2 evs2]|] eqn:Htr; [|done].
    simplify_eq. eapply IH; [done|]. by eapply Hstep.
Qed.

(** Taking the cases of a transition apart. *)
Ltac step_cases H :=
  unfold step, constructor, startServer_after, startListening_listen,
    startListening_iteration, startServer_answer, createAndBindSocket,
    destructor_step, pthread_join_queue, pthread_join_client, report_join,
    queue_step, client_start, client_recv, client_step in H;
  repeat (case_match; simplify_option_eq; try done).

(** *** The message-queue thread does not reach the end of its function *)

Lemma queue_thread_inv_initial (Port uninit_socket : Z) :
  queue_thread_inv (initial Port uninit_socket).
Proof. repeat split; try done. by left. Qed.

Lemma queue_thread_inv_step (a : action) (st st' : State) (evs : list event) :
  step a st = Some (st', evs) → queue_thread_inv st → queue_thread_inv st'.
Proof.
  intros Hstep Hinv.
  destruct a; step_cases Hstep; destruct Hinv as (Hret & Hnone & Hclose & Hdone);
    unfold queue_thread_inv; simpl;
    repeat split; try done; try congruence;
    try (intros Hn; destruct (Hnone Hn) as [?|[? ?]]; congruence);
    try (intros _; right; by eexists);
    destruct Hnone as [?|[? ?]]; (done || congruence).
Qed.

(** *** First in, first out *)

Lemma pushed_app (e1 e2 : list event) : pushed (e1 ++ e2) = pushed e1 ++ pushed e2.
Proof. unfold pushed. by rewrite map_app, concat_app. Qed.

Lemma popped_app (e1 e2 : list event) : popped (e1 ++ e2) = popped e1 ++ popped e2.
Proof. unfold popped. by rewrite map_app, concat_app. Qed.

Lemma reported_app (e1 e2 : list event) :
  reported (e1 ++ e2) = reported e1 ++ reported e2.
Proof. unfold reported. by rewrite map_app, concat_app. Qed.

Lemma fifo_inv_initial (Port uninit_socket : Z) : fifo_inv (initial Port uninit_socket).
Proof. by split. Qed.

Ltac fifo_close :=
  simplify_eq/=;
  unfold fifo_inv, fifo_step, in_hand, pushed, popped, reported; simpl;
  repeat match goal with H : _ = _ |- _ => rewrite H end; simpl;
  rewrite ?app_nil_r; repeat split; (done || congruence).

Lemma fifo_queue_step (st st' : State) (evs : list event) :
  queue_step st = Some (st', evs) → fifo_inv st → fifo_inv st' ∧ fifo_step st evs st'.
Proof.
  intros Hstep [Hctl Hq]. unfold queue_step in Hstep.
  destruct (messageQueueThread st) as [pc|] eqn:Hpc; [|done]. simpl in Hstep.
  assert (Hctl' : control st ≠ MConstruct) by (intros Hc; by specialize (Hctl Hc)).
  clear Hctl.
  destruct pc; try done.
  - (* the emptiness check *)
    simplify_eq. destruct (messageQueue st) eqn:Hqueue; fifo_close.
  - (* the sleep *)
    simplify_eq. fifo_close.
  - (* the lock *)
    destruct (mutex st) eqn:Hmutex; simplify_eq. fifo_close.
  - (* front *)
    destruct (messageQueue st) as [|m q] eqn:Hqueue; simplify_eq. fifo_close.
  - (* pop *)
    destruct (messageQueue st) as [|m q] eqn:Hqueue; simplify_eq. fifo_close.
  - (* the unlock *)
    destruct (decide (mutex st = Some QueueThread)); simplify_eq. fifo_close.
  - (* the report *)
    simplify_eq. fifo_close.
Qed.

Lemma fifo_other_step (a : action) (st st' : State) (evs : list event) :
  a ≠ QueueStep →
  step a st = Some (st', evs) → fifo_inv st → fifo_inv st' ∧ fifo_step st evs st'.
Proof.
  intros Hne Hstep Hinv.
  destruct a; try done; step_cases Hstep; destruct Hinv as [Hctl Hq];
    unfold fifo_inv, fifo_step, in_hand, pushed, popped, reported in *; simpl in *;
    rewrite ?app_nil_r;
    try (destruct (messageQueueThread _) as [[]|];
         destruct (messageQueue _); simpl in *;
         repeat split; try done; try congruence; naive_solver).
Qed.

Lemma fifo_step_inv (a : action) (st st' : State) (evs : list event) :
  step a st = Some (st', evs) → fifo_inv st → fifo_inv st' ∧ fifo_step st evs st'.
Proof.
  destruct (a) eqn:Ha; try (rewrite <- Ha; apply fifo_other_step; by subst a).
  simpl. apply fifo_queue_step.
Qed.

Lemma fifo_run (tr : list action) (st st' : State) (evs : list event) :
  run tr st = Some (st', evs) → fifo_inv st → fifo_inv st' ∧ fifo_step st evs st'.
Proof.
  revert st evs. induction tr as [|a tr IH]; intros st evs Hrun Hinv; simpl in Hrun.
  - simplify_eq. split; [done|]. unfold fifo_step, pushed, popped, reported. simpl.
    by rewrite !app_nil_r.
  - destruct (step a st) as [[st1 evs1]|] eqn:Ha; [|done].
    destruct (run tr st1) as [[st2 evs2]|] eqn:Htr; [|done]. simplify_eq.
    destruct (fifo_step_inv _ _ _ _ Ha Hinv) as [Hinv1 [Hq1 Hh1]].
    destruct (IH _ _ Htr Hinv1) as [Hinv2 [Hq2 Hh2]].
    split; [done|]. unfold fifo_step.
    rewrite pushed_app, popped_app, reported_app. split.
    + by rewrite app_assoc, Hq1, <- !app_assoc, Hq2.
    + by rewrite app_assoc, Hh1, <- !app_assoc, Hh2.
Qed.

(** C1: in every run from the initial state, the messages popped so far
    followed by the contents of the queue are the messages pushed so far, in
    the order they were pushed; and the messages reported so far, followed by
    the message the message-queue thread has in hand, are the messages popped
    so far, in the order they were popped.  So messages leave the queue, and
    are reported, in the order they entered it. *)
Theorem queue_is_fifo (Port uninit_socket : Z) (tr : list action)
    (st : State) (evs : list event) :
  run tr (initial Port uninit_socket) = Some (st, evs) →
  pushed evs = popped evs ++ messageQueue st ∧
  popped evs = reported evs ++ in_hand st.
Proof.
  intros Hrun.
  destruct (fifo_run _ _ _ _ Hrun (fifo_inv_initial Port uninit_socket))
    as [_ [Hq Hh]].
  simpl in Hq, Hh. done.
Qed.

Lemma queue_is_fifo_witness :
  run two_clients_run (initial 9000 (-1))
    = Some (final two_clients_run, shown two_clients_run) ∧
  pushed (shown two_clients_run)
    = [(5, "world" +:+ nl); (4, "hello" +:+ nl); (5, "again" +:+ nl)] ∧
  reported (shown two_clients_run) = [(5, "world" +:+ nl); (4, "hello" +:+ nl)] ∧
  pushed (shown two_clients_run)
    = popped (shown two_clients_run) ++ messageQueue (final two_clients_run) ∧
  popped (shown two_clients_run)
    = reported (shown two_clients_run) ++ in_hand (final two_clients_run).
Proof.
  split; [vm_compute; reflexivity|].
  split; [vm_compute; reflexivity|]. split; [vm_compute; reflexivity|].
  apply (queue_is_fifo 9000 (-1) two_clients_run
           (final two_clients_run) (shown two_clients_run)).
  vm_compute; reflexivity.
Defined.

(** ** The mutex *)

Lemma mutex_inv_initial (Port uninit_socket : Z) : mutex_inv (initial Port uninit_socket).
Proof. split; [done|]. intros who. by destruct who. Qed.

(** How the holder changes when thread [me] moves and no other thread
    does. *)
Lemma mutex_holder_update (st st' : State) (me : thread_id) (before after : bool) :
  (∀ who, mutex st = Some who ↔ in_section who st = true) →
  (∀ who, who ≠ me → in_section who st' = in_section who st) →
  in_section me st = before →
  in_section me st' = after →
  mutex st' = (if after then Some me else if before then None else mutex st) →
  (before = false → after = true → mutex st = None) →
  ∀ who, mutex st' = Some who ↔ in_section who st' = true.
Proof.
  intros Hinv Hothers Hbefore Hafter Hmutex Hfree who.
  destruct (decide (who = me)) as [->|Hne].
  - rewrite Hafter, Hmutex. destruct after; [done|].
    destruct before; [done|]. by rewrite Hinv, Hbefore.
  - rewrite (Hothers who Hne), <- Hinv, Hmutex.
    destruct after.
    + split; [congruence|]. intros Hwho. destruct before.
      * apply Hinv in Hbefore. congruence.
      * rewrite Hfree in Hwho; done.
    + destruct before; [|done]. apply Hinv in Hbefore. split; congruence.
Qed.

Lemma in_section_set_client_ne (who : thread_id) (t : nat) (f : client_frame)
    (st st' : State) :
  who ≠ ClientThread t →
  messageQueueThread st' = messageQueueThread st →
  clientThreads st' = <[t := Running f]> (clientThreads st) →
  in_section who st' = in_section who st.
Proof.
  intros Hne Hq Hc. destruct who as [| |t']; simpl; [done| |].
  - unfold queue_in_section. by rewrite Hq.
  - rewrite Hc, list_lookup_insert_ne; [done|]. congruence.
Qed.

Lemma in_section_set_client_eq (t : nat) (f : client_frame) (c : client_thread)
    (st st' : State) :
  clientThreads st !! t = Some c →
  clientThreads st' = <[t := Running f]> (clientThreads st) →
  in_section (ClientThread t) st' = frame_in_section (Some (Running f)).
Proof.
  intros Hc Hc'. simpl. rewrite Hc', list_lookup_insert_eq; [done|].
  by eapply lookup_lt_Some.
Qed.

Lemma frame_in_section_spawn (l : list client_thread) (t : nat) :
  frame_in_section ((l ++ [Spawned]) !! t) = frame_in_section (l !! t).
Proof.
  destruct (decide (t < length l)%nat) as [Hlt|Hge].
  - by rewrite lookup_app_l.
  - rewrite (lookup_ge_None_2 l) by lia. rewrite lookup_app_r by lia.
    by destruct (t - length l)%nat as [|[|]].
Qed.

(** The transitions of the controlling thread leave the mutex alone and show
    nothing of the queue. *)
Lemma mutex_main_step (a : action) (st st' : State) (evs : list event) :
  match a with
  | QueueStep | ClientStart _ _ | ClientRecv _ _ | ClientStep _ => False
  | _ => True
  end →
  step a st = Some (st', evs) → mutex_inv st → mutex_inv st' ∧ evs = [].
Proof.
  intros Hmain Hstep Hinv.
  destruct a; try done; step_cases Hstep; destruct Hinv as [Hctl Hmx];
    (split; [|done]); (split; [simpl; congruence|]);
    intros who; (etransitivity; [apply Hmx|]);
    destruct who; simpl; unfold queue_in_section; simpl;
    rewrite ?frame_in_section_spawn; try done;
    rewrite Hctl by done; done.
Qed.

Lemma mutex_queue_step (st st' : State) (evs : list event) :
  queue_step st = Some (st', evs) → mutex_inv st →
  mutex_inv st' ∧ Forall access_as_coded evs.
Proof.
  intros Hstep [Hctl Hmx]. unfold queue_step in Hstep.
  destruct (messageQueueThread st) as [pc|] eqn:Hpc; [|done]. simpl in Hstep.
  assert (Hothers : ∀ st'', clientThreads st'' = clientThreads st →
            ∀ who, who ≠ QueueThread → in_section who st'' = in_section who st).
  { intros st'' Hc [| |t] Hne; simpl; [done | done | by rewrite Hc]. }
  assert (Hme : mutex st = Some QueueThread ↔ queue_in_section st = true)
    by apply (Hmx QueueThread).
  assert (Hbefore : in_section QueueThread st = queue_in_section st) by done.
  unfold queue_in_section in Hme, Hbefore. rewrite Hpc in Hme, Hbefore.
  assert (Hctl' : ∀ pc', control st = MConstruct → Some pc' = @None queue_pc).
  { intros pc' Hc. by specialize (Hctl Hc). }
  destruct pc; try done.
  - (* the emptiness check *)
    simplify_eq. split; [split; [apply Hctl'|]|].
    + eapply (mutex_holder_update st _ QueueThread false false);
        [exact Hmx | by apply Hothers | done | | done | done].
      simpl. unfold queue_in_section. simpl. by destruct (is_empty _).
    + apply Forall_singleton. simpl. intros Hheld. by apply Hme in Hheld.
  - (* the sleep *)
    simplify_eq. split; [split; [apply Hctl'|]|done].
    eapply (mutex_holder_update st _ QueueThread false false);
      [exact Hmx | by apply Hothers | ..]; try done; simpl; by apply Hme.
  - (* the lock *)
    revert Hstep. case_eq (mutex st); [done|]. intros Hmutex Hstep. simplify_eq.
    split; [split; [apply Hctl'|]|done].
    eapply (mutex_holder_update st _ QueueThread false true);
      [exact Hmx | by apply Hothers | ..]; try done; simpl; by apply Hme.
  - (* front *)
    destruct (messageQueue st) as [|m q] eqn:Hqueue; simplify_eq.
    split; [split; [apply Hctl'|]|].
    + eapply (mutex_holder_update st _ QueueThread true true);
        [exact Hmx | by apply Hothers | ..]; try done; simpl; by apply Hme.
    + apply Forall_singleton. simpl. by apply Hme.
  - (* pop *)
    destruct (messageQueue st) as [|m q] eqn:Hqueue; simplify_eq.
    split; [split; [apply Hctl'|]|].
    + eapply (mutex_holder_update st _ QueueThread true true);
        [exact Hmx | by apply Hothers | ..]; try done; simpl; by apply Hme.
    + apply Forall_singleton. simpl. by apply Hme.
  - (* the unlock *)
    destruct (decide (mutex st = Some QueueThread)); simplify_eq.
    split; [split; [apply Hctl'|]|done].
    eapply (mutex_holder_update st _ QueueThread true false);
      [exact Hmx | by apply Hothers | ..]; try done; simpl; by apply Hme.
  - (* the report *)
    simplify_eq. split; [split; [apply Hctl'|]|by apply Forall_singleton].
    eapply (mutex_holder_update st _ QueueThread false false);
      [exact Hmx | by apply Hothers | ..]; try done; simpl; by apply Hme.
Qed.

Ltac client_holder t before after Hmx Hme :=
  eapply (mutex_holder_update _ _ (ClientThread t) before after);
  [ exact Hmx
  | intros who Hwho; by eapply in_section_set_client_ne
  | try done
  | try (erewrite in_section_set_client_eq; [ | eassumption | reflexivity]; reflexivity)
  | try done; simpl; by apply Hme
  | try done ].

Lemma mutex_client_step (a : action) (st st' : State) (evs : list event) :
  match a with
  | ClientStart _ _ | ClientRecv _ _ | ClientStep _ => True
  | _ => False
  end →
  step a st = Some (st', evs) → mutex_inv st →
  mutex_inv st' ∧ Forall access_as_coded evs.
Proof.
  intros Hclient Hstep [Hctl Hmx]. destruct a as [| | | | | | |t ?|t ?|t]; try done.
  - (* the thread starts *)
    simpl in Hstep. unfold client_start in Hstep.
    destruct (clientThreads st !! t) as [[|f]|] eqn:Hf; try done.
    destruct (decide (length uninit = BUFFER_SIZE)); simplify_eq/=.
    split; [split; [done|]|done].
    client_holder t false false Hmx Hmx. simpl. by rewrite Hf.
  - (* recv *)
    simpl in Hstep. unfold client_recv in Hstep.
    destruct (clientThreads st !! t) as [[|f]|] eqn:Hf; try done.
    destruct (cpc f) eqn:Hpc; try done.
    destruct (recv_possible r); simplify_eq/=.
    split; [split; [done|]|done].
    client_holder t false false Hmx Hmx.
    + simpl. rewrite Hf. simpl. by rewrite Hpc.
    + erewrite in_section_set_client_eq; [|done|done]. simpl.
      by destruct (0 <? recv_return r).
  - (* the other statements *)
    simpl in Hstep. unfold client_step in Hstep.
    destruct (clientThreads st !! t) as [[|f]|] eqn:Hf; try done.
    assert (Hme : mutex st = Some (ClientThread t) ↔
                  frame_in_section (Some (Running f)) = true).
    { rewrite <- Hf. apply (Hmx (ClientThread t)). }
    assert (Hbefore : in_section (ClientThread t) st
                      = frame_in_section (Some (Running f))).
    { simpl. by rewrite Hf. }
    simpl in Hme, Hbefore.
    destruct (cpc f) eqn:Hpc; try done.
    + (* the lock *)
      revert Hstep. case_eq (mutex st); [done|]. intros Hmutex Hstep. simplify_eq.
      split; [split; [done|]|done].
      client_holder t false true Hmx Hme.
    + (* push *)
      destruct (string_of_c_str (buffer f)) as [payload|]; simplify_eq/=.
      split; [split; [done|]|].
      * client_holder t true true Hmx Hme.
      * apply Forall_singleton. simpl. by apply Hme.
    + (* the unlock *)
      destruct (decide (mutex st = Some (ClientThread t))); simplify_eq.
      split; [split; [done|]|done].
      client_holder t true false Hmx Hme.
    + (* memset *)
      simplify_eq. split; [split; [done|]|done].
      client_holder t false false Hmx Hme.
    + (* the test after the loop *)
      simplify_eq. split; [split; [by destruct (bytesRead f <=? 0)|]|done].
      destruct (bytesRead f <=? 0); client_holder t false false Hmx Hme.
    + (* close *)
      simplify_eq. split; [split; [done|]|done].
      client_holder t false false Hmx Hme.
Qed.

Lemma mutex_step (a : action) (st st' : State) (evs : list event) :
  step a st = Some (st', evs) → mutex_inv st →
  mutex_inv st' ∧ Forall access_as_coded evs.
Proof.
  intros Hstep Hinv. destruct a eqn:Ha;
    try (by eapply mutex_client_step; [|exact Hstep|]);
    try (by eapply mutex_queue_step);
    rewrite <- Ha in Hstep;
    (destruct (mutex_main_step a st st' evs) as [Hinv' ->];
     [by rewrite Ha | done | done | by split]).
Qed.

Lemma mutex_run (tr : list action) (st st' : State) (evs : list event) :
  run tr st = Some (st', evs) → mutex_inv st →
  mutex_inv st' ∧ Forall access_as_coded evs.
Proof.
  revert st evs. induction tr as [|a tr IH]; intros st evs Hrun Hinv; simpl in Hrun.
  - by simplify_eq.
  - destruct (step a st) as [[st1 evs1]|] eqn:Ha; [|done].
    destruct (run tr st1) as [[st2 evs2]|] eqn:Htr; [|done]. simplify_eq.
    destruct (mutex_step _ _ _ _ Ha Hinv) as [Hinv1 Hevs1].
    destruct (IH _ _ Htr Hinv1) as [Hinv2 Hevs2].
    split; [done|]. by apply Forall_app.
Qed.

(** The locking discipline of the code, in every run from the initial state:
    [push], [front] and [pop] are made by the thread that holds the mutex,
    and every emptiness check is made by a thread that does not hold it. *)
Lemma queue_accesses (Port uninit_socket : Z) (tr : list action)
    (st : State) (evs : list event) :
  run tr (initial Port uninit_socket) = Some (st, evs) →
  Forall access_as_coded evs.
Proof.
  intros Hrun.
  by destruct (mutex_run _ _ _ _ Hrun (mutex_inv_initial Port uninit_socket)).
Qed.

(** C2 fails on the code: the first statement of the message-queue thread
    reads [messageQueue.empty()] while no thread holds the mutex.  Here the
    server has just been constructed. *)
Theorem empty_check_without_mutex :
  ∃ st, run [Construct 3 0 0; QueueStep] (initial 9000 (-1))
          = Some (st, [EvQueue QueueThread None (OpEmpty true)]) ∧
        mutex st = None ∧
        ¬ Forall spec_locked_access [EvQueue QueueThread None (OpEmpty true)].
Proof.
  eexists. split; [vm_compute; reflexivity|]. split; [reflexivity|].
  intros Hall. apply Forall_cons in Hall as [Hlocked _]. discriminate Hlocked.
Qed.

(** ** The message-queue thread never ends *)

(** C10: the loop of [handleMessageQueue] has no exit.  In every state that
    a run reaches from the initial state, the message-queue thread, once
    created, is not at the end of its function and has a next statement to
    execute, unless it is waiting for the mutex; and the destructor has not
    got past [pthread_join(messageQueueThread)]: when it is at that join, it
    cannot move. *)
Theorem queue_thread_never_returns (Port uninit_socket : Z) (tr : list action)
    (st : State) (evs : list event) :
  run tr (initial Port uninit_socket) = Some (st, evs) →
  messageQueueThread st ≠ Some QReturn ∧
  (∀ pc, messageQueueThread st = Some pc →
         is_Some (step QueueStep st) ∨ (pc = QLock ∧ is_Some (mutex st))) ∧
  control st ≠ MDtorCloseSocket ∧
  control st ≠ MDestroyed ∧
  (control st = MDtorQueueThread → step DtorStep st = None).
Proof.
  intros Hrun.
  assert (Hinv : queue_thread_inv st).
  { eapply (run_invariant queue_thread_inv queue_thread_inv_step); [exact Hrun|].
    apply queue_thread_inv_initial. }
  destruct Hinv as (Hret & Hnone & Hclose & Hdone).
  destruct (fifo_run _ _ _ _ Hrun (fifo_inv_initial Port uninit_socket))
    as [[_ Hfifo] _].
  destruct (mutex_run _ _ _ _ Hrun (mutex_inv_initial Port uninit_socket))
    as [[_ Hmutex] _].
  split; [done|]. split; [|do 2 (split; [done|])].
  - intros pc Hpc. simpl. unfold queue_step. rewrite Hpc. simpl.
    specialize (Hmutex QueueThread). simpl in Hmutex.
    unfold queue_in_section in Hmutex. rewrite Hpc in Hfifo, Hmutex.
    destruct pc; try (by left); try done.
    + destruct (mutex st); [right | left]; done.
    + destruct (messageQueue st); [done | by left].
    + destruct (messageQueue st); [done | by left].
    + left. rewrite decide_True; [done|]. by apply Hmutex.
  - intros Hpc. simpl. unfold destructor_step, pthread_join_queue. rewrite Hpc.
    destruct (messageQueueThread st) as [[]|] eqn:Hq; try done.
    destruct (Hnone eq_refl) as [?|[? ?]]; congruence.
Qed.

Lemma queue_thread_never_returns_witness :
  run shutdown_run (initial 9000 (-1)) = Some (final shutdown_run, shown shutdown_run) ∧
  control (final shutdown_run) = MDtorQueueThread ∧
  messageQueueThread (final shutdown_run) ≠ Some QReturn ∧
  (∀ pc, messageQueueThread (final shutdown_run) = Some pc →
         is_Some (step QueueStep (final shutdown_run)) ∨
         (pc = QLock ∧ is_Some (mutex (final shutdown_run)))) ∧
  control (final shutdown_run) ≠ MDtorCloseSocket ∧
  control (final shutdown_run) ≠ MDestroyed ∧
  (control (final shutdown_run) = MDtorQueueThread →
   step DtorStep (final shutdown_run) = None).
Proof.
  split; [vm_compute; reflexivity|]. split; [vm_compute; reflexivity|].
  apply (queue_thread_never_returns 9000 (-1) shutdown_run
           (final shutdown_run) (shown shutdown_run)).
  vm_compute; reflexivity.
Defined.

(** * Further properties *)

(** ** Mutual exclusion *)

Lemma section_inv_initial (content : option thread_id) (Port uninit_socket : Z) :
  section_inv (initial_with_mutex content Port uninit_socket).
Proof. split; [done|]. intros who. by destruct who. Qed.

(** How the holder changes when thread [me] moves and no other thread
    does, whatever the mutex held at first. *)
Lemma section_holder_update (st st' : State) (me : thread_id) (before after : bool) :
  (∀ who, in_section who st = true → mutex st = Some who) →
  (∀ who, who ≠ me → in_section who st' = in_section who st) →
  in_section me st = before →
  in_section me st' = after →
  mutex st' = (if after then Some me else if before then None else mutex st) →
  (before = false → after = true → mutex st = None) →
  ∀ who, in_section who st' = true → mutex st' = Some who.
Proof.
  intros Hinv Hothers Hbefore Hafter Hmutex Hfree who Hwho.
  destruct (decide (who = me)) as [->|Hne].
  - rewrite Hmutex, <- Hafter, Hwho. done.
  - rewrite (Hothers who Hne) in Hwho. apply Hinv in Hwho. rewrite Hmutex.
    destruct after.
    + destruct before.
      * apply Hinv in Hbefore. congruence.
      * rewrite Hfree in Hwho; done.
    + destruct before; [|done]. apply Hinv in Hbefore. congruence.
Qed.

Lemma section_main_step (a : action) (st st' : State) (evs : list event) :
  match a with
  | QueueStep | ClientStart _ _ | ClientRecv _ _ | ClientStep _ => False
  | _ => True
  end →
  step a st = Some (st', evs) → section_inv st → section_inv st'.
Proof.
  intros Hmain Hstep Hinv.
  destruct a; try done; step_cases Hstep; destruct Hinv as [Hctl Hmx];
    (split; [simpl; congruence|]);
    intros who Hwho; apply (Hmx who); revert Hwho;
    destruct who; simpl; unfold queue_in_section; simpl;
    rewrite ?frame_in_section_spawn; try done;
    rewrite Hctl by done; done.
Qed.

Lemma section_queue_step (st st' : State) (evs : list event) :
  queue_step st = Some (st', evs) → section_inv st → section_inv st'.
Proof.
  intros Hstep [Hctl Hmx]. unfold queue_step in Hstep.
  destruct (messageQueueThread st) as [pc|] eqn:Hpc; [|done]. simpl in Hstep.
  assert (Hothers : ∀ st'', clientThreads st'' = clientThreads st →
            ∀ who, who ≠ QueueThread → in_section who st'' = in_section who st).
  { intros st'' Hc [| |t] Hne; simpl; [done | done | by rewrite Hc]. }
  assert (Hme : queue_in_section st = true → mutex st = Some QueueThread)
    by apply (Hmx QueueThread).
  assert (Hbefore : in_section QueueThread st = queue_in_section st) by done.
  unfold queue_in_section in Hme, Hbefore. rewrite Hpc in Hme, Hbefore.
  assert (Hctl' : ∀ pc', control st = MConstruct → Some pc' = @None queue_pc).
  { intros pc' Hc. by specialize (Hctl Hc). }
  destruct pc; try done.
  - (* the emptiness check *)
    simplify_eq. split; [apply Hctl'|].
    eapply (section_holder_update st _ QueueThread false false);
      [exact Hmx | by apply Hothers | done | | done | done].
    simpl. unfold queue_in_section. simpl. by destruct (is_empty _).
  - (* the sleep *)
    simplify_eq. split; [apply Hctl'|].
    by eapply (section_holder_update st _ QueueThread false false);
      [exact Hmx | by apply Hothers | ..].
  - (* the lock *)
    revert Hstep. case_eq (mutex st); [done|]. intros Hmutex Hstep. simplify_eq.
    split; [apply Hctl'|].
    by eapply (section_holder_update st _ QueueThread false true);
      [exact Hmx | by apply Hothers | ..].
  - (* front *)
    destruct (messageQueue st) as [|m q] eqn:Hqueue; simplify_eq.
    split; [apply Hctl'|].
    eapply (section_holder_update st _ QueueThread true true);
      [exact Hmx | by apply Hothers | ..]; try done; simpl; by apply Hme.
  - (* pop *)
    destruct (messageQueue st) as [|m q] eqn:Hqueue; simplify_eq.
    split; [apply Hctl'|].
    eapply (section_holder_update st _ QueueThread true true);
      [exact Hmx | by apply Hothers | ..]; try done; simpl; by apply Hme.
  - (* the unlock *)
    destruct (decide (mutex st = Some QueueThread)); simplify_eq.
    split; [apply Hctl'|].
    by eapply (section_holder_update st _ QueueThread true false);
      [exact Hmx | by apply Hothers | ..].
  - (* the report *)
    simplify_eq. split; [apply Hctl'|].
    by eapply (section_holder_update st _ QueueThread false false);
      [exact Hmx | by apply Hothers | ..].
Qed.

Ltac section_holder t before after Hmx Hme :=
  eapply (section_holder_update _ _ (ClientThread t) before after);
  [ exact Hmx
  | intros who Hwho; by eapply in_section_set_client_ne
  | try done
  | try (erewrite in_section_set_client_eq; [ | eassumption | reflexivity]; reflexivity)
  | try done; simpl; by apply Hme
  | try done ].

Lemma section_client_step (a : action) (st st' : State) (evs : list event) :
  match a with
  | ClientStart _ _ | ClientRecv _ _ | ClientStep _ => True
  | _ => False
  end →
  step a st = Some (st', evs) → section_inv st → section_inv st'.
Proof.
  intros Hclient Hstep [Hctl Hmx]. destruct a as [| | | | | | |t ?|t ?|t]; try done.
  - (* the thread starts *)
    simpl in Hstep. unfold client_start in Hstep.
    destruct (clientThreads st !! t) as [[|f]|] eqn:Hf; try done.
    destruct (decide (length uninit = BUFFER_SIZE)); simplify_eq/=.
    split; [done|].
    section_holder t false false Hmx Hmx. simpl. by rewrite Hf.
  - (* recv *)
    simpl in Hstep. unfold client_recv in Hstep.
    destruct (clientThreads st !! t) as [[|f]|] eqn:Hf; try done.
    destruct (cpc f) eqn:Hpc; try done.
    destruct (recv_possible r); simplify_eq/=.
    split; [done|].
    section_holder t false false Hmx Hmx.
    + simpl. rewrite Hf. simpl. by rewrite Hpc.
    + erewrite in_section_set_client_eq; [|done|done]. simpl.
      by destruct (0 <? recv_return r).
  - (* the other statements *)
    simpl in Hstep. unfold client_step in Hstep.
    destruct (clientThreads st !! t) as [[|f]|] eqn:Hf; try done.
    assert (Hme : frame_in_section (Some (Running f)) = true →
                  mutex st = Some (ClientThread t)).
    { rewrite <- Hf. apply (Hmx (ClientThread t)). }
    assert (Hbefore : in_section (ClientThread t) st
                      = frame_in_section (Some (Running f))).
    { simpl. by rewrite Hf. }
    simpl in Hme, Hbefore.
    destruct (cpc f) eqn:Hpc; try done.
    + (* the lock *)
      revert Hstep. case_eq (mutex st); [done|]. intros Hmutex Hstep. simplify_eq.
      split; [done|]. section_holder t false true Hmx Hme.
    + (* push *)
      destruct (string_of_c_str (buffer f)) as [payload|]; simplify_eq/=.
      split; [done|]. section_holder t true true Hmx Hme.
    + (* the unlock *)
      destruct (decide (mutex st = Some (ClientThread t))); simplify_eq.
      split; [done|]. section_holder t true false Hmx Hme.
    + (* memset *)
      simplify_eq. split; [done|]. section_holder t false false Hmx Hme.
    + (* the test after the loop *)
      simplify_eq. split; [by destruct (bytesRead f <=? 0)|].
      destruct (bytesRead f <=? 0); section_holder t false false Hmx Hme.
    + (* close *)
      simplify_eq. split; [done|]. section_holder t false false Hmx Hme.
Qed.

Lemma section_inv_step (a : action) (st st' : State) (evs : list event) :
  step a st = Some (st', evs) → section_inv st → section_inv st'.
Proof.
  intros Hstep Hinv. destruct a eqn:Ha;
    try (by eapply section_client_step; [|exact Hstep|]);
    try (by eapply section_queue_step);
    rewrite <- Ha in Hstep;
    (eapply (section_main_step a); [by rewrite Ha | done | done]).
Qed.

(** X1: the mutex excludes.  The source does not initialise the mutex;
    whether its memory reads as unlocked or as locked when the constructor
    is entered, in every state a run reaches a thread that is between its
    lock and its unlock (a client thread at its push or unlock, the
    message-queue thread at its front, pop or unlock) holds the mutex, and at
    most one thread is there.  When the memory reads as unlocked, the
    converse holds too: the mutex is held only by a thread between its lock
    and its unlock, never across [recv], [accept], [usleep] or a join. *)
Theorem mutual_exclusion (content : option thread_id) (Port uninit_socket : Z)
    (tr : list action) (st : State) (evs : list event) :
  run tr (initial_with_mutex content Port uninit_socket) = Some (st, evs) →
  (∀ who, in_section who st = true → mutex st = Some who) ∧
  (∀ a b, in_section a st = true → in_section b st = true → a = b) ∧
  (content = None → ∀ who, mutex st = Some who → in_section who st = true).
Proof.
  intros Hrun.
  assert (Hinv : section_inv st).
  { eapply (run_invariant section_inv section_inv_step); [exact Hrun|].
    apply section_inv_initial. }
  destruct Hinv as [_ Hmx]. split; [done|]. split.
  - intros a b Ha Hb. apply Hmx in Ha. apply Hmx in Hb. congruence.
  - intros -> who Hwho.
    change (initial_with_mutex None Port uninit_socket)
      with (initial Port uninit_socket) in Hrun.
    destruct (mutex_run _ _ _ _ Hrun (mutex_inv_initial Port uninit_socket))
      as [[_ Hiff] _].
    by apply Hiff.
Qed.

Lemma mutual_exclusion_witness :
  run locked_run (initial_with_mutex None 9000 (-1)) = Some (final locked_run, []) ∧
  mutex (final locked_run) = Some (ClientThread 0) ∧
  in_section (ClientThread 0) (final locked_run) = true ∧
  (∀ who, in_section who (final locked_run) = true →
          mutex (final locked_run) = Some who) ∧
  (∀ a b, in_section a (final locked_run) = true →
          in_section b (final locked_run) = true → a = b) ∧
  (@None thread_id = None → ∀ who, mutex (final locked_run) = Some who →
                        in_section who (final locked_run) = true).
Proof.
  split; [vm_compute; reflexivity|]. split; [vm_compute; reflexivity|].
  split; [vm_compute; reflexivity|].
  apply (mutual_exclusion None 9000 (-1) locked_run (final locked_run) []).
  vm_compute; reflexivity.
Defined.

(** ** Sockets and exceptions of the controlling thread *)

Lemma one_server_socket_step (a : action) (st st' : State) (evs : list event) :
  step a st = Some (st', evs) → one_server_socket st → one_server_socket st'.
Proof.
  intros Hstep Hinv.
  destruct a; step_cases Hstep; unfold one_server_socket in *; simpl;
    intros fd s Hfd Hs;
    repeat match goal with
    | H : context [<[?k := _]> _ !! ?fd] |- _ =>
        rewrite lookup_insert in H; destruct (decide (k = fd)); simplify_eq/=
    | H : context [delete ?k _ !! ?fd] |- _ =>
        rewrite lookup_delete in H; destruct (decide (k = fd)); simplify_eq/=
    | H : context [alter _ ?k _ !! ?fd] |- _ =>
        rewrite lookup_alter in H; destruct (decide (k = fd)); simplify_eq/=
    end; try done; try (by eapply Hinv); try (split; [done | by left]);
    try (destruct (Hinv _ _ Hfd Hs) as [? ?]; congruence).
  destruct (sockets st !! serverSocket st) as [s0|] eqn:Hs0; simplify_eq/=.
  split; [done|].
  destruct s0; try done;
    destruct (Hinv _ _ Hs0 ltac:(done)) as [_ [?|?]]; simplify_eq; auto.
Qed.

(** X2: restarts leak no listening socket.  In every state a run reaches
    from the initial state, every socket of the process other than the
    accepted connections is the current [serverSocket], and it is bound to,
    or listening with backlog [MAX_CLIENTS] on, the port [htons(serverPort)]:
    the sockets of earlier starts have been closed. *)
Theorem only_one_server_socket (Port uninit_socket : Z) (tr : list action)
    (st : State) (evs : list event) (fd : Z) (s : sock_state) :
  run tr (initial Port uninit_socket) = Some (st, evs) →
  sockets st !! fd = Some s →
  s ≠ SockConnected →
  fd = serverSocket st ∧
  serverPort st = Port ∧
  (s = SockBound (htons Port) ∨ s = SockListening (htons Port) MAX_CLIENTS).
Proof.
  intros Hrun Hfd Hs.
  assert (Hport : serverPort st = Port).
  { eapply (run_invariant (λ st, serverPort st = Port)); [|exact Hrun|done].
    clear. intros a st st' evs Hstep Hp. by destruct a; step_cases Hstep. }
  assert (Hinv : one_server_socket st).
  { eapply (run_invariant one_server_socket one_server_socket_step); [exact Hrun|].
    intros fd' s' Hfd'. done. }
  destruct (Hinv fd s Hfd Hs) as [-> Hstate]. rewrite Hport in Hstate. done.
Qed.

Lemma only_one_server_socket_witness :
  run restarted_run (initial 9000 (-1))
    = Some (final restarted_run, shown restarted_run) ∧
  sockets (final restarted_run) !! 7 = Some (SockListening 9000 10) ∧
  SockListening 9000 10 ≠ SockConnected ∧
  sockets (final restarted_run) !! 3 = None ∧
  7 = serverSocket (final restarted_run) ∧
  serverPort (final restarted_run) = 9000 ∧
  (SockListening 9000 10 = SockBound (htons 9000) ∨
   SockListening 9000 10 = SockListening (htons 9000) MAX_CLIENTS).
Proof.
  split; [vm_compute; reflexivity|]. split; [vm_compute; reflexivity|].
  split; [discriminate|]. split; [vm_compute; reflexivity|].
  apply (only_one_server_socket 9000 (-1) restarted_run (final restarted_run)
           (shown restarted_run) 7 (SockListening 9000 10));
    [vm_compute; reflexivity | vm_compute; reflexivity | discriminate].
Defined.

Lemma escaped_error_known_step (a : action) (st st' : State) (evs : list event) :
  step a st = Some (st', evs) → escaped_error_known st → escaped_error_known st'.
Proof.
  intros Hstep Hinv.
  destruct a; step_cases Hstep; unfold escaped_error_known, constructor_errors,
    restart_errors in *; simpl;
    repeat match goal with H : control _ = _ |- _ => rewrite H in * end;
    try done; set_solver.
Qed.

(** X3: which exceptions escape.  In every run from the initial state, an
    exception that leaves the constructor carries one of its three messages,
    and an exception that leaves [startServer] comes from the
    [createAndBindSocket] of a restart: ["Listening error."] and
    ["Thread could not be created."] never leave [startServer]. *)
Theorem escaping_exceptions (Port uninit_socket : Z) (tr : list action)
    (st : State) (evs : list event) :
  run tr (initial Port uninit_socket) = Some (st, evs) →
  (∀ ex, control st = MConstructThrew ex → what ex ∈ constructor_errors) ∧
  (∀ ex, control st = MStartServerThrew ex → what ex ∈ restart_errors).
Proof.
  intros Hrun.
  assert (Hinv : escaped_error_known st).
  { eapply (run_invariant escaped_error_known escaped_error_known_step);
      [exact Hrun | done]. }
  unfold escaped_error_known in Hinv.
  split; intros ex Hex; by rewrite Hex in Hinv.
Qed.

Lemma escaping_exceptions_witness :
  run failed_restart_run (initial 9000 (-1))
    = Some (final failed_restart_run, shown failed_restart_run) ∧
  control (final failed_restart_run) = MStartServerThrew (MkError "Unable to bind socket.") ∧
  (∀ ex, control (final failed_restart_run) = MConstructThrew ex →
         what ex ∈ constructor_errors) ∧
  (∀ ex, control (final failed_restart_run) = MStartServerThrew ex →
         what ex ∈ restart_errors).
Proof.
  split; [vm_compute; reflexivity|]. split; [vm_compute; reflexivity|].
  apply (escaping_exceptions 9000 (-1) failed_restart_run
           (final failed_restart_run) (shown failed_restart_run)).
  vm_compute; reflexivity.
Defined.


(** X4: a constructor that throws leaves nothing behind.  Whichever step
    failed ([socket], [bind] or the creation of the message-queue thread),
    the exception carries the message of that step, the descriptor the
    constructor obtained is closed again, together with the descriptor
    [serverSocket] held on entry, no other socket is touched and no thread
    exists. *)
Theorem constructor_throw_releases (st st' : State) (sock_fd bind_r create_r : Z)
    (ex : TCPServerError) :
  constructor sock_fd bind_r create_r st = Throws ex st' →
  what ex = (if sock_fd =? -1 then "Socket could not be created."
             else if bind_r =? -1 then "Unable to bind socket."
             else "Message Queue Thread could not be created.") ∧
  sockets st' = delete sock_fd (delete (serverSocket st) (sockets st)) ∧
  messageQueueThread st' = messageQueueThread st ∧
  clientThreads st' = clientThreads st.
Proof.
  unfold constructor, createAndBindSocket. intros Hthrow.
  destruct (sock_fd =? -1) eqn:Hsock.
  - apply Z.eqb_eq in Hsock as ->. by simplify_eq/=.
  - destruct (bind_r =? -1) eqn:Hbind; simpl in Hthrow.
    + simplify_eq/=. repeat split.
      by rewrite delete_insert_eq, delete_delete_eq.
    + destruct (negb (create_r =? 0)); simplify_eq/=. repeat split.
      by rewrite !delete_insert_eq.
Qed.

Lemma constructor_throw_releases_witness :
  constructor 3 (-1) 0 (initial 9000 (-1))
    = Throws (MkError "Unable to bind socket.")
             (set_serverSocket 3 (initial 9000 (-1))) ∧
  what (MkError "Unable to bind socket.")
    = (if 3 =? -1 then "Socket could not be created."
       else if -1 =? -1 then "Unable to bind socket."
       else "Message Queue Thread could not be created.") ∧
  sockets (set_serverSocket 3 (initial 9000 (-1)))
    = delete 3 (delete (serverSocket (initial 9000 (-1))) (sockets (initial 9000 (-1)))) ∧
  messageQueueThread (set_serverSocket 3 (initial 9000 (-1)))
    = messageQueueThread (initial 9000 (-1)) ∧
  clientThreads (set_serverSocket 3 (initial 9000 (-1)))
    = clientThreads (initial 9000 (-1)).
Proof.
  split; [vm_compute; reflexivity|].
  apply (constructor_throw_releases (initial 9000 (-1))
           (set_serverSocket 3 (initial 9000 (-1))) 3 (-1) 0
           (MkError "Unable to bind socket.")).
  vm_compute; reflexivity.
Defined.

(** ** The prompt *)

Lemma run_app_events (tr1 tr2 : list action) (st : State) :
  run (tr1 ++ tr2) st =
  match run tr1 st with
  | Some (st1, evs1) =>
      match run tr2 st1 with
      | Some (st2, evs2) => Some (st2, evs1 ++ evs2)
      | None => None
      end
  | None => None
  end.
Proof.
  revert st. induction tr1 as [|a tr1 IH]; intros st; simpl.
  - by destruct (run tr2 st) as [[]|].
  - destruct (step a st) as [[st1 evs1]|]; [|done].
    rewrite IH. destruct (run tr1 st1) as [[st2 evs2]|]; [|done].
    destruct (run tr2 st2) as [[st3 evs3]|]; [|done].
    by rewrite app_assoc.
Qed.







(** ** The size of the payloads *)

Lemma recv_into_terminated (r : recv_result) (buf : list ascii) :
  recv_possible r = true →
  zero_terminated buf →
  zero_terminated (recv_into (recv_bytes r) buf).
Proof.
  intros Hr [Hlen Hlast]. unfold zero_terminated, recv_into, BUFFER_SIZE in *.
  assert (Hdata : (length (recv_bytes r) ≤ 255)%nat).
  { destruct r as [data| |]; simpl in *; [|lia..].
    apply andb_true_iff in Hr as [_ Hle]. by apply Nat.leb_le in Hle. }
  split.
  - rewrite length_app, length_drop. lia.
  - rewrite lookup_app_r by lia. rewrite lookup_drop.
    by replace (length (recv_bytes r) + (256 - 1 - length (recv_bytes r)))%nat
      with (256 - 1)%nat by lia.
Qed.

Lemma memset_terminated : zero_terminated (memset_zero BUFFER_SIZE).
Proof. by split. Qed.

(** What a transition does to the list of client threads. *)
Lemma step_threads (a : action) (st st' : State) (evs : list event) :
  step a st = Some (st', evs) →
  clientThreads st' = clientThreads st ∨
  clientThreads st' = clientThreads st ++ [Spawned] ∨
  ∃ t c f, clientThreads st !! t = Some c ∧
           clientThreads st' = <[t := Running f]> (clientThreads st) ∧
           frame_moves a c f.
Proof.
  intros Hstep.
  destruct a; step_cases Hstep; simpl;
    try (by left); try (by right; left);
    right; right; eexists _, _, _; (split; [eassumption|]);
    (split; [reflexivity|]); simpl; try done;
    try (by eexists); try (intros; by apply recv_into_terminated);
    intros; apply memset_terminated.
Qed.

Lemma buffers_terminated_step (a : action) (st st' : State) (evs : list event) :
  step a st = Some (st', evs) → starts_terminated a →
  buffers_terminated st → buffers_terminated st'.
Proof.
  intros Hstep Ha Hinv t f Hf.
  destruct (step_threads _ _ _ _ Hstep) as [Heq|[Heq|(t0 & c & f0 & Hc & Heq & Hmove)]];
    rewrite Heq in Hf.
  - by eapply Hinv.
  - apply lookup_app_Some in Hf as [Hf|[_ Hf]]; [by eapply Hinv|].
    by destruct (t - length (clientThreads st))%nat as [|[|]].
  - destruct (decide (t0 = t)) as [->|Hne].
    + rewrite list_lookup_insert_eq in Hf by (by eapply lookup_lt_Some).
      simplify_eq. destruct c as [|f1]; simpl in Hmove.
      * destruct Hmove as [t' ->]. exact Ha.
      * apply Hmove. by eapply Hinv.
    + rewrite list_lookup_insert_ne in Hf by done. by eapply Hinv.
Qed.

Lemma c_str_chars_length (buf cs : list ascii) :
  c_str_chars buf = Some cs → (length cs < length buf)%nat.
Proof.
  revert cs. induction buf as [|c buf IH]; intros cs Hcs; simpl in *; [done|].
  destruct (is_NUL c); simplify_eq/=; [lia|].
  destruct (c_str_chars buf) as [cs'|]; simplify_eq/=.
  specialize (IH cs' eq_refl). lia.
Qed.

Lemma c_str_chars_defined (buf : list ascii) :
  NUL ∈ buf → is_Some (c_str_chars buf).
Proof.
  induction buf as [|c buf IH]; intros Hin; simpl.
  - by apply elem_of_nil in Hin.
  - unfold is_NUL. destruct (Ascii.eqb_spec c NUL) as [->|Hc]; [by eexists|].
    apply elem_of_cons in Hin as [Hin|Hin]; [done|].
    destruct (IH Hin) as [cs ->]. by eexists.
Qed.

Lemma string_of_list_ascii_length (cs : list ascii) :
  String.length (String.string_of_list_ascii cs) = length cs.
Proof. induction cs as [|c cs IH]; simpl; [done | by rewrite IH]. Qed.

Lemma c_str_length (buf : list ascii) (s : string) :
  string_of_c_str buf = Some s → (String.length s < length buf)%nat.
Proof.
  unfold string_of_c_str. intros Hs.
  destruct (c_str_chars buf) as [cs|] eqn:Hcs; simplify_eq/=.
  rewrite string_of_list_ascii_length. by apply c_str_chars_length.
Qed.

Lemma zero_terminated_c_str (buf : list ascii) :
  zero_terminated buf → is_Some (string_of_c_str buf).
Proof.
  intros [_ Hlast]. unfold string_of_c_str.
  destruct (c_str_chars_defined buf) as [cs ->]; [|by eexists].
  by eapply list_elem_of_lookup_2.
Qed.

(** The messages a transition pushes: none, or the C string in the buffer of
    a running client thread. *)
Lemma step_pushed (a : action) (st st' : State) (evs : list event) :
  step a st = Some (st', evs) →
  pushed evs = [] ∨
  ∃ t f payload, clientThreads st !! t = Some (Running f) ∧
                 string_of_c_str (buffer f) = Some payload ∧
                 pushed evs = [(clientSocket f, payload)].
Proof.
  intros Hstep.
  destruct a; step_cases Hstep; try (by left);
    right; by eexists _, _, _.
Qed.

Lemma payloads_fit_run (tr : list action) (st st' : State) (evs : list event) :
  run tr st = Some (st', evs) → Forall starts_terminated tr →
  buffers_terminated st →
  buffers_terminated st' ∧ Forall fits_one_read (pushed evs).
Proof.
  revert st evs. induction tr as [|a tr IH]; intros st evs Hrun Htr Hinv;
    simpl in Hrun.
  - simplify_eq. split; [done | constructor].
  - destruct (step a st) as [[st1 evs1]|] eqn:Ha; [|done].
    destruct (run tr st1) as [[st2 evs2]|] eqn:Htr'; [|done]. simplify_eq.
    apply Forall_cons in Htr as [Hstart Htr].
    destruct (IH _ _ Htr' Htr (buffers_terminated_step _ _ _ _ Ha Hstart Hinv))
      as [Hinv2 Hfit2].
    split; [done|]. rewrite pushed_app. apply Forall_app. split; [|done].
    destruct (step_pushed _ _ _ _ Ha) as [->|(t & f & payload & Hf & Hs & ->)];
      [constructor|].
    apply Forall_singleton. unfold fits_one_read. simpl.
    apply c_str_length in Hs. destruct (Hinv _ _ Hf) as [Hlen _].
    rewrite Hlen in Hs. unfold BUFFER_SIZE in *. lia.
Qed.

(** X7: when the stack ends the buffer with a zero, no payload is longer
    than one read.  [recv] writes at most 255 bytes, so the last byte of the
    256-byte buffer is what the stack held when the thread started, until
    [memset] clears it.  In every run from the initial state in which that
    byte is zero at the start of each client thread, every running thread's
    buffer holds a zero byte, so that each conversion to [std::string] ends
    within the buffer, and every message pushed, still in the queue or
    reported has a payload of at most 255 bytes. *)
Theorem payloads_fit_one_read (Port uninit_socket : Z) (tr : list action)
    (st : State) (evs : list event) :
  run tr (initial Port uninit_socket) = Some (st, evs) →
  Forall starts_terminated tr →
  (∀ t f, clientThreads st !! t = Some (Running f) →
          is_Some (string_of_c_str (buffer f))) ∧
  Forall fits_one_read (pushed evs) ∧
  Forall fits_one_read (messageQueue st) ∧
  Forall fits_one_read (reported evs).
Proof.
  intros Hrun Htr.
  assert (Hterm : buffers_terminated (initial Port uninit_socket)) by (by intros t f).
  destruct (payloads_fit_run _ _ _ _ Hrun Htr Hterm) as [Hinv Hpushed].
  destruct (fifo_run _ _ _ _ Hrun (fifo_inv_initial Port uninit_socket))
    as [_ [Hq Hh]].
  simpl in Hq, Hh.
  split. { intros t f Hf. apply zero_terminated_c_str. by eapply Hinv. }
  split; [done|]. rewrite Hq in Hpushed.
  apply Forall_app in Hpushed as [Hpopped Hqueue]. split; [done|].
  rewrite Hh in Hpopped. by apply Forall_app in Hpopped as [Hreported _].
Qed.

Lemma stale_stack_terminated : zero_terminated stale_stack.
Proof. by split. Qed.

Lemma payloads_fit_one_read_witness :
  run stale_run (initial 9000 (-1)) = Some (final stale_run, shown stale_run) ∧
  Forall starts_terminated stale_run ∧
  pushed (shown stale_run) = [(4, "histale")] ∧
  (∀ t f, clientThreads (final stale_run) !! t = Some (Running f) →
          is_Some (string_of_c_str (buffer f))) ∧
  Forall fits_one_read (pushed (shown stale_run)) ∧
  Forall fits_one_read (messageQueue (final stale_run)) ∧
  Forall fits_one_read (reported (shown stale_run)).
Proof.
  assert (Hstarts : Forall starts_terminated stale_run).
  { unfold stale_run, boot. simpl app.
    repeat (apply Forall_cons; split;
            [first [exact I | exact stale_stack_terminated]|]).
    apply Forall_nil_2. }
  split; [vm_compute; reflexivity|]. split; [exact Hstarts|].
  split; [vm_compute; reflexivity|].
  apply (payloads_fit_one_read 9000 (-1) stale_run (final stale_run) (shown stale_run));
    [vm_compute; reflexivity | exact Hstarts].
Defined.

(** ** The registry *)

Lemma map_entries_elem_of (m : gmap Z nat) (s : Z) (t : nat) :
  (s, t) ∈ map_entries m ↔ m !! s = Some t.
Proof.
  unfold map_entries. rewrite merge_sort_Permutation. apply elem_of_map_to_list.
Qed.

Lemma registry_inv_step (a : action) (st st' : State) (evs : list event) :
  step a st = Some (st', evs) → registry_inv st → registry_inv st'.
Proof.
  intros Hstep Hinv.
  destruct a; step_cases Hstep; destruct Hinv as (Hlt & Hinj & Hrest);
    unfold registry_inv; simpl;
    rewrite ?length_insert, ?length_app; simpl;
    (split; [|split]); try done; try (intros; simplify_eq; done).
  all: try (intros s t; rewrite lookup_insert; case_decide; intros; simplify_eq;
            [lia | specialize (Hlt _ _ ltac:(eassumption)); lia]).
  all: try (intros s1 s2 t; rewrite !lookup_insert; repeat case_decide;
            intros; simplify_eq; try done;
            try (specialize (Hlt _ _ ltac:(eassumption)); lia);
            by eapply Hinj).
  all: try (intros rest Hc s t Hst; simplify_eq;
            try (apply map_entries_elem_of in Hst; by eapply Hlt);
            try (eapply Hrest; [done|]; set_solver);
            specialize (Hrest _ ltac:(eassumption) _ _ Hst); lia).
  all: intros rest Hc s t Hst; simplify_eq;
       eapply (Hrest _ H); apply elem_of_cons; by right.
Qed.

(** X8: the destructor never reports a join failure.  In every state a run
    reaches from the initial state, every thread recorded in [clientsMap]
    is a thread that was created, under one socket only; and a step of the
    destructor writes nothing to the error stream: its
    ["Failed to join thread."] branches are never taken. *)
Theorem destructor_joins_never_fail (Port uninit_socket : Z) (tr : list action)
    (st st' : State) (evs evs' : list event) :
  run tr (initial Port uninit_socket) = Some (st, evs) →
  step DtorStep st = Some (st', evs') →
  cerr st' = cerr st ∧
  (∀ s t, clientsMap st !! s = Some t → is_Some (clientThreads st !! t)) ∧
  (∀ s1 s2 t, clientsMap st !! s1 = Some t → clientsMap st !! s2 = Some t → s1 = s2).
Proof.
  intros Hrun Hstep.
  assert (Hinv : registry_inv st).
  { eapply (run_invariant registry_inv registry_inv_step); [exact Hrun|].
    repeat split; try done. }
  assert (Hq : queue_thread_inv st).
  { eapply (run_invariant queue_thread_inv queue_thread_inv_step); [exact Hrun|].
    apply queue_thread_inv_initial. }
  destruct Hinv as (Hlt & Hinj & Hrest). destruct Hq as (Hret & Hnone & _ & _).
  split; [|split; [|done]].
  - simpl in Hstep. unfold destructor_step in Hstep.
    destruct (control st) as [| | | | | | |[|[s t] rest]| | |] eqn:Hc; simplify_eq/=;
      try done.
    + specialize (Hrest _ eq_refl s t ltac:(by left)).
      apply lookup_lt_is_Some_2 in Hrest as [c Hc'].
      unfold pthread_join_client in Hstep. rewrite Hc' in Hstep.
      destruct c as [|f]; [done|]. by destruct (cpc f); simplify_eq/=.
    + unfold pthread_join_queue in Hstep.
      destruct (messageQueueThread st) as [[]|]; simplify_eq/=; try done.
      destruct (Hnone eq_refl) as [?|[? ?]]; congruence.
  - intros s t Hst. apply lookup_lt_is_Some_2. by eapply Hlt.
Qed.

Lemma destructor_joins_never_fail_witness :
  run destroy_run (initial 9000 (-1))
    = Some (final destroy_run, []) ∧
  step DtorStep (final destroy_run)
    = Some (final (destroy_run ++ [DtorStep]), []) ∧
  cerr (final (destroy_run ++ [DtorStep]))
    = cerr (final destroy_run) ∧
  (∀ s t, clientsMap (final destroy_run) !! s
            = Some t →
          is_Some (clientThreads
                     (final destroy_run) !! t)) ∧
  (∀ s1 s2 t,
     clientsMap (final destroy_run) !! s1
       = Some t →
     clientsMap (final destroy_run) !! s2
       = Some t → s1 = s2).
Proof.
  split; [vm_compute; reflexivity|]. split; [vm_compute; reflexivity|].
  apply (destructor_joins_never_fail 9000 (-1)
           destroy_run
           (final destroy_run)
           (final (destroy_run ++ [DtorStep]))
           [] []);
    vm_compute; reflexivity.
Defined.


(** X9: a descriptor that comes back replaces its entry.  In a state a run
    reaches from the initial state, when [accept] returns a value that is
    already a key of [clientsMap] (the descriptor of a closed connection
    given out again, or -1 after an earlier failed [accept]), the new thread
    takes the entry: the registry does not grow, and the thread recorded
    before, which still exists, is no longer recorded under any key, so the
    destructor will not join it. *)
Theorem reused_descriptor_replaces_entry (Port uninit_socket : Z) (tr : list action)
    (st : State) (evs : list event) (fd : Z) (old : nat) :
  run tr (initial Port uninit_socket) = Some (st, evs) →
  control st = MAcceptLoop →
  clientsMap st !! fd = Some old →
  ∃ st', step (Accept fd 0) st = Some (st', []) ∧
         clientsMap st' !! fd = Some (length (clientThreads st)) ∧
         size (clientsMap st') = size (clientsMap st) ∧
         is_Some (clientThreads st' !! old) ∧
         (∀ k, clientsMap st' !! k ≠ Some old) ∧
         (∀ k, (k, old) ∉ map_entries (clientsMap st')).
Proof.
  intros Hrun Hpc Hold.
  assert (Hinv : registry_inv st).
  { eapply (run_invariant registry_inv registry_inv_step); [exact Hrun|].
    repeat split; try done. }
  destruct Hinv as (Hlt & Hinj & _).
  assert (Hkeys : ∀ k, <[fd := length (clientThreads st)]> (clientsMap st) !! k ≠ Some old).
  { intros k. rewrite lookup_insert. case_decide as Hk.
    - intros ?. simplify_eq. specialize (Hlt _ _ Hold). lia.
    - intros Hk'. by specialize (Hinj _ _ _ Hold Hk'). }
  eexists. split. { simpl. rewrite Hpc. reflexivity. }
  unfold startListening_iteration.
  destruct (fd =? -1); simpl;
    (split; [apply lookup_insert_eq|]);
    (split; [by eapply map_size_insert_Some|]);
    (split; [apply lookup_lt_is_Some_2; rewrite length_app;
             specialize (Hlt _ _ Hold); lia|]);
    (split; [done|]); intros k Hk; apply map_entries_elem_of in Hk; by eapply Hkeys.
Qed.

(** Client 4 disconnects, and the next connection gets descriptor 4 again. *)
Lemma reused_descriptor_replaces_entry_witness :
  run disconnect_run (initial 9000 (-1)) = Some (final disconnect_run, shown disconnect_run) ∧
  control (final disconnect_run) = MAcceptLoop ∧
  clientsMap (final disconnect_run) !! 4 = Some 0%nat ∧
  ∃ st', step (Accept 4 0) (final disconnect_run) = Some (st', []) ∧
         clientsMap st' !! 4 = Some (length (clientThreads (final disconnect_run))) ∧
         size (clientsMap st') = size (clientsMap (final disconnect_run)) ∧
         is_Some (clientThreads st' !! 0%nat) ∧
         (∀ k, clientsMap st' !! k ≠ Some 0%nat) ∧
         (∀ k, (k, 0%nat) ∉ map_entries (clientsMap st')).
Proof.
  split; [vm_compute; reflexivity|]. split; [vm_compute; reflexivity|].
  split; [vm_compute; reflexivity|].
  apply (reused_descriptor_replaces_entry 9000 (-1) disconnect_run
           (final disconnect_run) (shown disconnect_run) 4 0);
    vm_compute; reflexivity.
Defined.

Lemma no_restart_step (a : action) (st st' : State) (evs : list event) :
  step a st = Some (st', evs) → no_restart a →
  dom (clientsMap st) ⊆ dom (clientsMap st').
Proof.
  intros Hstep Ha.
  destruct a; step_cases Hstep; simpl in *; try done;
    try apply dom_insert_subseteq; congruence.
Qed.

(** X10: only a restart empties the registry.  Along a run without restart,
    from any state, [clientsMap] never loses a key: neither the client
    threads, nor the message-queue thread, nor the accept loop, nor the
    destructor removes an entry. *)
Theorem registry_keeps_keys (tr : list action) (st st' : State) (evs : list event) :
  run tr st = Some (st', evs) →
  Forall no_restart tr →
  dom (clientsMap st) ⊆ dom (clientsMap st').
Proof.
  revert st evs. induction tr as [|a tr IH]; intros st evs Hrun Htr; simpl in Hrun.
  - by simplify_eq.
  - destruct (step a st) as [[st1 evs1]|] eqn:Ha; [|done].
    destruct (run tr st1) as [[st2 evs2]|] eqn:Htr'; [|done]. simplify_eq.
    apply Forall_cons in Htr as [Hna Htr].
    etransitivity; [by eapply no_restart_step | by eapply IH].
Qed.

Lemma registry_keeps_keys_witness :
  run wind_down (final connect_run) = Some (final (connect_run ++ wind_down), []) ∧
  Forall no_restart wind_down ∧
  dom (clientsMap (final connect_run))
    ⊆ dom (clientsMap (final (connect_run ++ wind_down))).
Proof.
  split; [vm_compute; reflexivity|]. split; [by repeat constructor|].
  apply (registry_keeps_keys wind_down (final connect_run)
           (final (connect_run ++ wind_down)) []);
    [vm_compute; reflexivity | by repeat constructor].
Defined.

(** ** The destructor *)

Lemma close_entries_lookup (rest : list (Z * nat)) (m : gmap Z sock_state) (s : Z) :
  close_entries rest m !! s = if decide (s ∈ rest.*1) then None else m !! s.
Proof.
  revert m. induction rest as [|[s' t'] rest IH]; intros m.
  - unfold close_entries. cbn [foldl fmap list_fmap].
    rewrite decide_False; [done | apply not_elem_of_nil].
  - unfold close_entries in *. cbn [foldl]. rewrite IH. cbn [fmap list_fmap fst].
    destruct (decide (s ∈ rest.*1)) as [Hin|Hout].
    + rewrite decide_True; [done | apply elem_of_cons; by right].
    + destruct (decide (s = s')) as [->|Hne].
      * rewrite decide_True by (apply elem_of_cons; by left). apply lookup_delete_eq.
      * rewrite decide_False by (by intros [?|?]%elem_of_cons).
        by apply lookup_delete_ne.
Qed.

Lemma destructor_clients_run (rest : list (Z * nat)) (st : State) :
  control st = MDtorClients rest →
  (∀ s t, (s, t) ∈ rest → client_returned t st) →
  ∃ st', run (replicate (length rest) DtorStep) st = Some (st', []) ∧
         control st' = MDtorClients [] ∧
         sockets st' = close_entries rest (sockets st) ∧
         cerr st' = cerr st ∧ cout st' = cout st ∧
         serverSocket st' = serverSocket st ∧
         messageQueueThread st' = messageQueueThread st.
Proof.
  revert st. induction rest as [|[s t] rest IH]; intros st Hpc Hret.
  - exists st. by repeat split.
  - destruct (Hret s t ltac:(by left)) as (f & Hf & Hcpc).
    set (st1 := st |> os_close s |> set_control (MDtorClients rest)).
    assert (Hstep : step DtorStep st = Some (st1, [])).
    { simpl. unfold destructor_step, pthread_join_client. rewrite Hpc, Hf, Hcpc.
      reflexivity. }
    destruct (IH st1) as (st' & Hrun & Hc & Hs & He & Ho & Hss & Hq); [done| |].
    { intros s' t' Hin. apply (Hret s' t'). by right. }
    exists st'. split.
    { simpl length. rewrite replicate_S. cbn [run]. by rewrite Hstep, Hrun. }
    by rewrite Hc, Hs, He, Ho, Hss, Hq.
Qed.

(** X11: the destructor, when every recorded client thread has returned.
    Starting after [startServer] has returned, it joins the recorded threads
    without blocking and without reporting a failure, closes every socket
    that is a key of [clientsMap] (again, for those the threads have closed)
    and no other, and arrives at the join of the message-queue thread; the
    server socket, unless it is itself a key, is still open there. *)
Theorem destructor_closes_registered_sockets (st : State) :
  control st = MStartServerReturned →
  (∀ s t, clientsMap st !! s = Some t → client_returned t st) →
  ∃ st', run (Destroy :: replicate (S (size (clientsMap st))) DtorStep) st
           = Some (st', []) ∧
         control st' = MDtorQueueThread ∧
         (∀ s, is_Some (clientsMap st !! s) → sockets st' !! s = None) ∧
         (∀ s, clientsMap st !! s = None → sockets st' !! s = sockets st !! s) ∧
         cerr st' = cerr st.
Proof.
  intros Hpc Hret.
  set (rest := map_entries (clientsMap st)).
  set (st0 := set_control (MDtorClients rest) st).
  assert (Hlen : length rest = size (clientsMap st)).
  { unfold rest, map_entries. rewrite merge_sort_Permutation.
    apply length_map_to_list. }
  destruct (destructor_clients_run rest st0) as (st1 & Hrun & Hc & Hs & He & _);
    [done | |].
  { intros s t Hin. apply map_entries_elem_of in Hin. exact (Hret s t Hin). }
  exists (set_control MDtorQueueThread st1). split.
  { cbn [run]. unfold step at 1. rewrite Hpc. fold rest. fold st0.
    rewrite <- Hlen, replicate_S_end, run_app_events, Hrun.
    cbn [run]. unfold step, destructor_step. by rewrite Hc. }
  assert (Hkeys : ∀ s, s ∈ rest.*1 ↔ is_Some (clientsMap st !! s)).
  { intros s. rewrite list_elem_of_fmap. split.
    - intros [[s' t] [-> Hin]]. apply map_entries_elem_of in Hin. by exists t.
    - intros [t Ht]. exists (s, t). split; [done|]. by apply map_entries_elem_of. }
  simpl. rewrite Hs, He. repeat split; try done.
  - intros s Hin. rewrite close_entries_lookup. by rewrite decide_True by by apply Hkeys.
  - intros s Hout. rewrite close_entries_lookup. rewrite decide_False; [done|].
    rewrite Hkeys, Hout. by intros [? ?].
Qed.

Lemma destructor_closes_registered_sockets_witness :
  control (final returned_run) = MStartServerReturned ∧
  (∀ s t, clientsMap (final returned_run) !! s = Some t →
          client_returned t (final returned_run)) ∧
  ∃ st', run (Destroy :: replicate
                (S (size (clientsMap (final returned_run))))
                DtorStep)
             (final returned_run)
           = Some (st', []) ∧
         control st' = MDtorQueueThread ∧
         (∀ s, is_Some (clientsMap (final returned_run) !! s) →
               sockets st' !! s = None) ∧
         (∀ s, clientsMap (final returned_run) !! s = None →
               sockets st' !! s
               = sockets (final returned_run) !! s) ∧
         cerr st' = cerr (final returned_run).
Proof.
  assert (Hmap : clientsMap (final returned_run)
                 = {[ 4 := 0%nat ]}) by (vm_compute; reflexivity).
  assert (Hret : ∀ s t,
            clientsMap (final returned_run) !! s = Some t →
            client_returned t (final returned_run)).
  { intros s t. rewrite Hmap. intros [_ <-]%lookup_singleton_Some.
    eexists. split; vm_compute; reflexivity. }
  split; [vm_compute; reflexivity|]. split; [exact Hret|].
  apply (destructor_closes_registered_sockets
           (final returned_run));
    [vm_compute; reflexivity | exact Hret].
Defined.

(** ** The message-queue thread alone *)

Lemma queue_reports_front (st : State) (m : Message) (q : list Message) :
  messageQueueThread st = Some QCheckEmpty →
  mutex st = None →
  messageQueue st = m :: q →
  ∃ st', run (replicate 6 QueueStep) st
           = Some (st', [EvQueue QueueThread None (OpEmpty false);
                         EvQueue QueueThread (Some QueueThread) (OpFront m);
                         EvQueue QueueThread (Some QueueThread) (OpPop m);
                         EvReport m]) ∧
         messageQueueThread st' = Some QCheckEmpty ∧
         mutex st' = None ∧
         messageQueue st' = q ∧
         cout st' = report m (cout st) ∧
         cerr st' = cerr st ∧ sockets st' = sockets st ∧
         clientsMap st' = clientsMap st ∧ clientThreads st' = clientThreads st.
Proof.
  intros Hpc Hmutex Hq. destruct st. simpl in *. subst.
  eexists. split; [reflexivity|]. by repeat split.
Qed.

(** X12: the message-queue thread, left alone, empties the queue in order.
    From its emptiness check with the mutex free, six statements for each
    queued message pop and report the messages in the order of the queue,
    front first, appending one report line each to the standard output; the
    queue is then empty, the mutex free, and the thread back at its
    emptiness check. *)
Theorem queue_thread_drains (st : State) (q : list Message) :
  messageQueueThread st = Some QCheckEmpty →
  mutex st = None →
  messageQueue st = q →
  ∃ st' evs, run (replicate (6 * length q) QueueStep) st = Some (st', evs) ∧
             popped evs = q ∧
             reported evs = q ∧
             messageQueue st' = [] ∧
             cout st' = reports q (cout st) ∧
             messageQueueThread st' = Some QCheckEmpty ∧
             mutex st' = None.
Proof.
  revert st. induction q as [|m q IH]; intros st Hpc Hmutex Hq.
  - exists st, []. by repeat split.
  - destruct (queue_reports_front st m q Hpc Hmutex Hq)
      as (st1 & Hrun1 & Hpc1 & Hmutex1 & Hq1 & Hout1 & _).
    destruct (IH st1 Hpc1 Hmutex1 Hq1)
      as (st' & evs & Hrun & Hpop & Hrep & Hq' & Hout & Hpc' & Hmutex').
    eexists st', _. split.
    { replace (6 * length (m :: q))%nat with (6 + 6 * length q)%nat by (simpl; lia).
      rewrite replicate_add, run_app_events, Hrun1, Hrun. reflexivity. }
    rewrite popped_app, reported_app, Hpop, Hrep, Hout, Hout1.
    by repeat split.
Qed.

Lemma queue_thread_drains_witness :
  messageQueueThread (final restart_run) = Some QCheckEmpty ∧
  mutex (final restart_run) = None ∧
  messageQueue (final restart_run) = [(4, "hi")] ∧
  ∃ st' evs, run (replicate (6 * length [(4, "hi")]) QueueStep) (final restart_run)
               = Some (st', evs) ∧
             popped evs = [(4, "hi")] ∧
             reported evs = [(4, "hi")] ∧
             messageQueue st' = [] ∧
             cout st' = reports [(4, "hi")] (cout (final restart_run)) ∧
             messageQueueThread st' = Some QCheckEmpty ∧
             mutex st' = None.
Proof.
  split; [vm_compute; reflexivity|]. split; [vm_compute; reflexivity|].
  split; [vm_compute; reflexivity|].
  apply (queue_thread_drains (final restart_run) [(4, "hi")]);
    vm_compute; reflexivity.
Defined.

(** ** The loop of a client thread *)

(** One iteration of the loop, whatever the buffer holds. *)
Lemma client_iteration (st : State) (t : nat) (f : client_frame)
    (data : list ascii) (payload : string) :
  clientThreads st !! t = Some (Running f) →
  cpc f = CRecv →
  chunk_ok data →
  mutex st = None →
  string_of_c_str (recv_into data (buffer f)) = Some payload →
  ∃ st', run (read_chunk t data) st
           = Some (st', [EvQueue (ClientThread t) (Some (ClientThread t))
                                 (OpPush (clientSocket f, payload))]) ∧
         messageQueue st' = messageQueue st ++ [(clientSocket f, payload)] ∧
         clientThreads st' !! t =
           Some (Running {| clientSocket := clientSocket f;
                            buffer := memset_zero BUFFER_SIZE;
                            bytesRead := Z.of_nat (length data); cpc := CRecv |}) ∧
         mutex st' = None ∧
         threadData st' = threadData st ∧
         control st' = control st.
Proof.
  intros Hf Hpc Hlen Hmutex Hpayload. unfold chunk_ok, BUFFER_SIZE in Hlen.
  set (n := Z.of_nat (length data)).
  set (f1 := {| clientSocket := clientSocket f; buffer := recv_into data (buffer f);
                bytesRead := n; cpc := CLock |}).
  assert (H1 : step (ClientRecv t (RecvData data)) st = Some (set_client t f1 st, [])).
  { assert (Hposs : recv_possible (RecvData data) = true).
    { unfold recv_possible, BUFFER_SIZE. apply andb_true_iff.
      split; apply Nat.leb_le; lia. }
    assert (Hpos : (0 <? recv_return (RecvData data)) = true).
    { apply Z.ltb_lt. unfold recv_return. lia. }
    unfold step, client_recv. rewrite Hf, Hpc, Hposs, Hpos. reflexivity. }
  set (st1 := set_client t f1 st) in *.
  assert (Hf1 : clientThreads st1 !! t = Some (Running f1))
    by (by eapply lookup_set_client).
  set (st2 := st1 |> set_mutex (Some (ClientThread t))
                  |> set_client t (goto_client CPush f1)).
  assert (H2 : step (ClientStep t) st1 = Some (st2, [])).
  { simpl. unfold client_step. rewrite Hf1. simpl. by rewrite Hmutex. }
  assert (Hf2 : clientThreads st2 !! t = Some (Running (goto_client CPush f1))).
  { eapply (lookup_set_client _ _ (set_mutex _ st1)). exact Hf1. }
  set (m := (clientSocket f, payload)).
  set (st3 := st2 |> set_messageQueue (messageQueue st ++ [m])
                  |> set_client t (goto_client CUnlock (goto_client CPush f1))).
  assert (H3 : step (ClientStep t) st2
               = Some (st3, [EvQueue (ClientThread t) (Some (ClientThread t)) (OpPush m)])).
  { simpl. unfold client_step. rewrite Hf2. simpl. rewrite Hpayload. reflexivity. }
  assert (Hf3 : clientThreads st3 !! t
                = Some (Running (goto_client CUnlock (goto_client CPush f1)))).
  { eapply (lookup_set_client _ _ (set_messageQueue _ st2)). exact Hf2. }
  set (st4 := st3 |> set_mutex None
                  |> set_client t (goto_client CMemset
                                     (goto_client CUnlock (goto_client CPush f1)))).
  assert (H4 : step (ClientStep t) st3 = Some (st4, [])).
  { simpl. unfold client_step. rewrite Hf3. simpl. by rewrite decide_True. }
  assert (Hf4 : clientThreads st4 !! t
                = Some (Running (goto_client CMemset
                                   (goto_client CUnlock (goto_client CPush f1))))).
  { eapply (lookup_set_client _ _ (set_mutex _ st3)). exact Hf3. }
  set (f5 := {| clientSocket := clientSocket f; buffer := memset_zero BUFFER_SIZE;
                bytesRead := n; cpc := CRecv |}).
  assert (H5 : step (ClientStep t) st4 = Some (set_client t f5 st4, [])).
  { simpl. unfold client_step. rewrite Hf4. reflexivity. }
  exists (set_client t f5 st4). split.
  { unfold read_chunk. cbn [replicate run]. rewrite H1, H2, H3, H4, H5. reflexivity. }
  split; [reflexivity|]. split; [by eapply lookup_set_client|]. by repeat split.
Qed.

(** X13: a client's chunks are enqueued one message each, in order.  A
    client thread at its [recv] with a cleared buffer, running alone while
    the mutex is free, turns the chunks that [recv] returns (1 to 255 bytes
    each) into as many messages, pushed in the order of arrival, each
    carrying the thread's socket and the chunk cut at its first zero byte;
    it ends at its [recv] with a cleared buffer and the mutex free. *)
Theorem chunks_enqueued_in_order (chunks : list (list ascii)) (st : State)
    (t : nat) (f : client_frame) :
  clientThreads st !! t = Some (Running f) →
  cpc f = CRecv →
  buffer f = memset_zero BUFFER_SIZE →
  mutex st = None →
  Forall chunk_ok chunks →
  ∃ st' evs f',
    run (read_chunks t chunks) st = Some (st', evs) ∧
    pushed evs = map (chunk_message (clientSocket f)) chunks ∧
    messageQueue st' = messageQueue st ++ map (chunk_message (clientSocket f)) chunks ∧
    clientThreads st' !! t = Some (Running f') ∧
    clientSocket f' = clientSocket f ∧ cpc f' = CRecv ∧
    buffer f' = memset_zero BUFFER_SIZE ∧
    mutex st' = None.
Proof.
  revert st f. induction chunks as [|data chunks IH];
    intros st f Hf Hpc Hbuf Hmutex Hok.
  - exists st, [], f. simpl. rewrite app_nil_r. by repeat split.
  - apply Forall_cons in Hok as [Hdata Hok].
    destruct (client_iteration st t f data
                (String.string_of_list_ascii (before_NUL data)))
      as (st1 & Hrun1 & Hq1 & Hf1 & Hmutex1 & _); try done.
    { rewrite Hbuf. apply c_str_recv_zeroed.
      unfold chunk_ok, BUFFER_SIZE in *. lia. }
    destruct (IH st1 _ Hf1 eq_refl eq_refl Hmutex1 Hok)
      as (st' & evs & f' & Hrun & Hpushed & Hq & Hf' & Hsock & Hpc' & Hbuf' & Hmutex').
    simpl in Hpushed, Hq, Hsock.
    eexists st', _, f'. split.
    { unfold read_chunks in *. cbn [map concat].
      rewrite run_app_events, Hrun1, Hrun. reflexivity. }
    rewrite pushed_app, Hpushed, Hq, Hq1, <- app_assoc. by repeat split.
Qed.

Lemma chunks_enqueued_in_order_witness :
  clientThreads (final connect_run) !! 0%nat = Some (Running connected_frame) ∧
  cpc connected_frame = CRecv ∧
  buffer connected_frame = memset_zero BUFFER_SIZE ∧
  mutex (final connect_run) = None ∧
  Forall chunk_ok three_chunks ∧
  ∃ st' evs f',
    run (read_chunks 0 three_chunks) (final connect_run) = Some (st', evs) ∧
    pushed evs = map (chunk_message (clientSocket connected_frame)) three_chunks ∧
    messageQueue st' = messageQueue (final connect_run)
                         ++ map (chunk_message (clientSocket connected_frame)) three_chunks ∧
    clientThreads st' !! 0%nat = Some (Running f') ∧
    clientSocket f' = clientSocket connected_frame ∧ cpc f' = CRecv ∧
    buffer f' = memset_zero BUFFER_SIZE ∧
    mutex st' = None.
Proof.
  assert (Hok : Forall chunk_ok three_chunks).
  { repeat constructor; unfold BUFFER_SIZE; simpl; lia. }
  split; [reflexivity|]. split; [reflexivity|]. split; [reflexivity|].
  split; [reflexivity|]. split; [exact Hok|].
  apply (chunks_enqueued_in_order three_chunks (final connect_run) 0 connected_frame);
    [reflexivity | reflexivity | reflexivity | reflexivity | exact Hok].
Defined.

(** *** The first read *)




(** ** The argument of a client thread *)

Lemma accept_iteration_spawns (st : State) (fd : Z) :
  control st = MAcceptLoop →
  ∃ st', step (Accept fd 0) st = Some (st', []) ∧
         control st' = MAcceptLoop ∧
         threadData st' = fd ∧
         clientThreads st' = clientThreads st ++ [Spawned] ∧
         clientsMap st' = <[fd := length (clientThreads st)]> (clientsMap st).
Proof.
  intros Hpc. eexists. split. { simpl. rewrite Hpc. reflexivity. }
  unfold startListening_iteration. by destruct (fd =? -1).
Qed.

(** X15: a client thread serves the socket that [threadData] holds when the
    thread starts.  [pthread_create] is given the address of the loop's
    [threadData]; when the loop accepts a second connection before the
    thread of the first has started, that thread, recorded in [clientsMap]
    under the first socket, runs [handleClient] on the second one. *)
Theorem late_thread_serves_latest_socket (st : State) (fd1 fd2 : Z)
    (uninit : list ascii) :
  control st = MAcceptLoop →
  length uninit = BUFFER_SIZE →
  fd1 ≠ fd2 →
  ∃ st', run [Accept fd1 0; Accept fd2 0;
              ClientStart (length (clientThreads st)) uninit] st = Some (st', []) ∧
         clientsMap st' !! fd1 = Some (length (clientThreads st)) ∧
         clientThreads st' !! length (clientThreads st) =
           Some (Running {| clientSocket := fd2; buffer := uninit;
                            bytesRead := 0; cpc := CRecv |}).
Proof.
  intros Hpc Hlen Hne.
  destruct (accept_iteration_spawns st fd1 Hpc) as (st1 & H1 & Hpc1 & _ & Hth1 & Hmap1).
  destruct (accept_iteration_spawns st1 fd2 Hpc1) as (st2 & H2 & _ & Hdata2 & Hth2 & Hmap2).
  assert (Hspawned : clientThreads st2 !! length (clientThreads st) = Some Spawned).
  { rewrite Hth2, Hth1. rewrite lookup_app_l by (rewrite length_app; simpl; lia).
    by apply list_lookup_middle. }
  set (f := {| clientSocket := fd2; buffer := uninit; bytesRead := 0; cpc := CRecv |}).
  assert (H3 : step (ClientStart (length (clientThreads st)) uninit) st2
               = Some (set_client (length (clientThreads st)) f st2, [])).
  { simpl. unfold client_start. rewrite Hspawned, decide_True by done.
    by rewrite Hdata2. }
  eexists. split. { cbn [run]. rewrite H1, H2, H3. reflexivity. }
  split.
  - simpl. rewrite Hmap2, Hmap1. rewrite lookup_insert_ne by done.
    apply lookup_insert_eq.
  - by eapply lookup_set_client.
Qed.

Lemma late_thread_serves_latest_socket_witness :
  control (final boot) = MAcceptLoop ∧
  length zeros = BUFFER_SIZE ∧
  4 ≠ 5 ∧
  ∃ st', run [Accept 4 0; Accept 5 0;
              ClientStart (length (clientThreads (final boot))) zeros] (final boot)
           = Some (st', []) ∧
         clientsMap st' !! 4 = Some (length (clientThreads (final boot))) ∧
         clientThreads st' !! length (clientThreads (final boot)) =
           Some (Running {| clientSocket := 5; buffer := zeros;
                            bytesRead := 0; cpc := CRecv |}).
Proof.
  split; [reflexivity|]. split; [reflexivity|]. split; [lia|].
  apply (late_thread_serves_latest_socket (final boot) 4 5 zeros);
    [reflexivity | reflexivity | lia].
Defined.

(** ** The accept loop without limit *)

Lemma accepts_run (fds : list Z) (st : State) :
  control st = MAcceptLoop →
  NoDup fds →
  Forall (λ fd, fd ≠ -1 ∧ sockets st !! fd = None) fds →
  ∃ st', run (accepts fds) st = Some (st', []) ∧
         control st' = MAcceptLoop ∧
         live_connections st' = (live_connections st + length fds)%nat ∧
         length (clientThreads st') = (length (clientThreads st) + length fds)%nat ∧
         (∀ fd, sockets st !! fd = Some SockConnected ∨ fd ∈ fds →
                sockets st' !! fd = Some SockConnected) ∧
         (∀ fd, is_Some (clientsMap st !! fd) ∨ fd ∈ fds →
                is_Some (clientsMap st' !! fd)).
Proof.
  revert st. induction fds as [|fd fds IH]; intros st Hpc Hdup Hfresh.
  - exists st. simpl. rewrite !Nat.add_0_r. repeat split; try done.
    + by intros fd [?|?%elem_of_nil].
    + by intros fd [?|?%elem_of_nil].
  - apply NoDup_cons in Hdup as [Hfd Hdup].
    apply Forall_cons in Hfresh as [[Hne Hnone] Hfresh].
    set (st1 := set_clientsMap (<[fd := length (clientThreads st)]> (clientsMap st))
                  (set_clientThreads (clientThreads st ++ [Spawned])
                     (set_threadData fd
                        (st |> os_accept fd |> print_out "Client "
                            |> print_out_int fd |> print_out (" connected." +:+ nl))))).
    assert (H1 : step (Accept fd 0) st = Some (set_control MAcceptLoop st1, [])).
    { simpl. rewrite Hpc. unfold startListening_iteration.
      by rewrite (eqb_minus_one fd Hne). }
    destruct (IH (set_control MAcceptLoop st1))
      as (st' & Hrun & Hpc' & Hlive & Hlen & Hsock & Hreg); [done | done | |].
    { rewrite Forall_forall in Hfresh. apply Forall_forall. intros x Hx.
      destruct (Hfresh x Hx) as [Hxne Hxnone]. split; [done|]. simpl.
      rewrite lookup_insert_ne; [done|]. by intros ->. }
    exists st'. split. { unfold accepts in *. cbn [map run]. by rewrite H1, Hrun. }
    split; [done|]. split.
    { rewrite Hlive. change (live_connections (set_control MAcceptLoop st1))
        with (live_connections (os_accept fd st)).
      rewrite live_connections_accept by done. simpl. lia. }
    split. { rewrite Hlen. simpl. rewrite length_app. simpl. lia. }
    split.
    + intros x Hx. apply Hsock. simpl. rewrite lookup_insert.
      destruct (decide (fd = x)) as [->|Hfx]; [by left|].
      destruct Hx as [Hx|[->|Hx]%elem_of_cons]; [by left | done | by right].
    + intros x Hx. apply Hreg. simpl. rewrite lookup_insert.
      destruct (decide (fd = x)) as [->|Hfx]; [left; by eexists|].
      destruct Hx as [Hx|[->|Hx]%elem_of_cons]; [by left | done | by right].
Qed.

(** X16: the accept loop takes any number of connections.  From a state in
    the accept loop, accepting a list of distinct descriptors that are
    neither open nor -1 (every thread being created) leaves all of them open
    and recorded: the number of open connections grows by the length of the
    list, whatever it is, one thread is created for each, and the loop goes
    on. *)
Theorem accepts_all_connections (fds : list Z) (st : State) :
  control st = MAcceptLoop →
  NoDup fds →
  Forall (λ fd, fd ≠ -1 ∧ sockets st !! fd = None) fds →
  ∃ st', run (accepts fds) st = Some (st', []) ∧
         control st' = MAcceptLoop ∧
         live_connections st' = (live_connections st + length fds)%nat ∧
         length (clientThreads st') = (length (clientThreads st) + length fds)%nat ∧
         Forall (λ fd, sockets st' !! fd = Some SockConnected ∧
                       is_Some (clientsMap st' !! fd)) fds.
Proof.
  intros Hpc Hdup Hfresh.
  destruct (accepts_run fds st Hpc Hdup Hfresh)
    as (st' & Hrun & Hpc' & Hlive & Hlen & Hsock & Hreg).
  exists st'. repeat split; try done.
  apply Forall_forall. intros fd Hfd. split; [apply Hsock | apply Hreg]; by right.
Qed.

Lemma accepts_all_connections_witness :
  control (final boot) = MAcceptLoop ∧
  NoDup [4; 5; 6] ∧
  Forall (λ fd, fd ≠ -1 ∧ sockets (final boot) !! fd = None) [4; 5; 6] ∧
  ∃ st', run (accepts [4; 5; 6]) (final boot) = Some (st', []) ∧
         control st' = MAcceptLoop ∧
         live_connections st' = (live_connections (final boot) + length [4; 5; 6])%nat ∧
         length (clientThreads st')
           = (length (clientThreads (final boot)) + length [4; 5; 6])%nat ∧
         Forall (λ fd, sockets st' !! fd = Some SockConnected ∧
                       is_Some (clientsMap st' !! fd)) [4; 5; 6].
Proof.
  assert (Hdup : NoDup [4; 5; 6]) by compute_done.
  assert (Hfresh : Forall (λ fd, fd ≠ -1 ∧ sockets (final boot) !! fd = None) [4; 5; 6]).
  { repeat constructor; (lia || reflexivity). }
  split; [reflexivity|]. split; [exact Hdup|]. split; [exact Hfresh|].
  apply (accepts_all_connections [4; 5; 6] (final boot));
    [reflexivity | exact Hdup | exact Hfresh].
Defined.

(** ** Polling *)

(** X17: an idle message-queue thread polls without the mutex.  While the
    queue is empty, the thread goes from its emptiness check to [usleep] and
    back, any number of times, and changes nothing: it takes no lock, even
    when an other thread holds the mutex, and the state after the rounds is
    the state before. *)
Theorem idle_polling_changes_nothing (st : State) (k : nat) :
  messageQueueThread st = Some QCheckEmpty →
  messageQueue st = [] →
  run (replicate (2 * k) QueueStep) st
  = Some (st, replicate k (EvQueue QueueThread (mutex st) (OpEmpty true))).
Proof.
  intros Hpc Hq. induction k as [|k IH]; [done|].
  replace (2 * S k)%nat with (2 + 2 * k)%nat by lia.
  rewrite replicate_add, run_app_events.
  assert (Hround : run (replicate 2 QueueStep) st
                   = Some (st, [EvQueue QueueThread (mutex st) (OpEmpty true)])).
  { clear IH. destruct st. simpl in *. by subst. }
  by rewrite Hround, IH.
Qed.

Lemma idle_polling_changes_nothing_witness :
  messageQueueThread (final locked_run) = Some QCheckEmpty ∧
  messageQueue (final locked_run) = [] ∧
  mutex (final locked_run) = Some (ClientThread 0) ∧
  run (replicate (2 * 3) QueueStep) (final locked_run)
  = Some (final locked_run,
          replicate 3 (EvQueue QueueThread (mutex (final locked_run)) (OpEmpty true))).
Proof.
  split; [vm_compute; reflexivity|]. split; [vm_compute; reflexivity|].
  split; [vm_compute; reflexivity|].
  apply (idle_polling_changes_nothing (final locked_run) 3);
    vm_compute; reflexivity.
Defined.
